(** * chatgpt-feed: the catalog-to-feed mapping and caching pipeline

    A shallow embedding of [app/lib/feed-mapper.server.ts] and
    [app/lib/feed-service.server.ts], followed by the properties of the
    mapper, the serializer, the settings store and the feed cache.

    Conventions.
    - A JavaScript string is the list of its UTF-16 code units ([list N]).
    - A JavaScript [number] that holds an integer column or a count is a [Z];
      a [number] that may carry a fraction (a weight, the result of
      [parseFloat]) is a [number]: NaN, an infinity, or a finite decimal
      [m * 10^e] kept exactly.  The rounding of IEEE doubles is not part of
      the model.
    - [x || y] and [x && y] on strings follow JavaScript truthiness: the empty
      string, [null] and [undefined] are falsy. *)

From Stdlib Require Import ZArith NArith QArith List String Ascii Lia.
From Stdlib Require Import Decimal DecimalNat DecimalZ.
From stdpp Require Import gmap list.

Local Open Scope Z_scope.

(** ** Strings *)

Abbreviation str := (list N).

Fixpoint lit (s : string) : str :=
  match s with
  | EmptyString => []
  | String a s' => N_of_ascii a :: lit s'
  end.
Arguments lit s%_string : simpl never.

Definition str_eqb (a b : str) : bool := bool_decide (a = b).

(** [Boolean(s)] for a string. *)
Definition truthy (s : str) : bool :=
  match s with [] => false | _ => true end.

(** [Boolean(s)] for [string | null]. *)
Definition truthy_opt (s : option str) : bool :=
  match s with Some t => truthy t | None => false end.

(** [a || b] where [a : string]. *)
Definition or_str (a b : str) : str := if truthy a then a else b.

(** [a || b] where [a : string | null | undefined]. *)
Definition or_opt (a : option str) (b : str) : str :=
  match a with Some t => or_str t b | None => b end.

(** [s.split(sep)] for a one-character separator: always at least one part. *)
Fixpoint split (sep : N) (s : str) : list str :=
  match s with
  | [] => [[]]
  | c :: s' =>
      if N.eqb c sep then [] :: split sep s'
      else match split sep s' with
           | p :: ps => (c :: p) :: ps
           | [] => [[c]]
           end
  end.

(** [parts.join(sep)]. *)
Fixpoint join (sep : str) (parts : list str) : str :=
  match parts with
  | [] => []
  | [p] => p
  | p :: ps => p ++ sep ++ join sep ps
  end.

(** [s.toLowerCase()]: the ASCII letters are mapped; the case mapping of code
    units above 127 is left as the identity. *)
Definition lower_unit (c : N) : N :=
  if (N.leb 65 c && N.leb c 90)%bool then (c + 32)%N else c.

Definition toLowerCase (s : str) : str := map lower_unit s.

(** The class [\s] of regular expressions, which is also what [trim] strips:
    WhiteSpace and LineTerminator of ECMAScript. *)
Definition is_space (c : N) : bool :=
  ((N.leb 9 c && N.leb c 13) || N.eqb c 32 || N.eqb c 160 || N.eqb c 5760
   || (N.leb 8192 c && N.leb c 8202) || N.eqb c 8232 || N.eqb c 8233
   || N.eqb c 8239 || N.eqb c 8287 || N.eqb c 12288 || N.eqb c 65279)%bool.

(** ** Decimal text of integers: [String(n)] for an integer [n] *)

Definition digit_unit (d : N) : N := (48 + d)%N.

Fixpoint uint_units (d : Decimal.uint) : str :=
  match d with
  | Nil => []
  | D0 d' => digit_unit 0 :: uint_units d'
  | D1 d' => digit_unit 1 :: uint_units d'
  | D2 d' => digit_unit 2 :: uint_units d'
  | D3 d' => digit_unit 3 :: uint_units d'
  | D4 d' => digit_unit 4 :: uint_units d'
  | D5 d' => digit_unit 5 :: uint_units d'
  | D6 d' => digit_unit 6 :: uint_units d'
  | D7 d' => digit_unit 7 :: uint_units d'
  | D8 d' => digit_unit 8 :: uint_units d'
  | D9 d' => digit_unit 9 :: uint_units d'
  end.

Definition int_to_string (z : Z) : str :=
  match Z.to_int z with
  | Decimal.Pos d => uint_units d
  | Decimal.Neg d => 45%N :: uint_units d
  end.

(** ** Numbers with a fraction *)

Inductive number :=
| NaN
| Infinity (negative : bool)
| Finite (m : Z) (e : Z).

(** The value of [Finite m e]. *)
Definition Qvalue (m e : Z) : Q := inject_Z m * Qpower (10 # 1) e.

(** [a > b] on numbers; every comparison with NaN is false. *)
Definition num_gt (a b : number) : bool :=
  match a, b with
  | NaN, _ | _, NaN => false
  | Infinity na, Infinity nb => (negb na && nb)%bool
  | Infinity na, Finite _ _ => negb na
  | Finite _ _, Infinity nb => nb
  | Finite m1 e1, Finite m2 e2 => negb (Qle_bool (Qvalue m1 e1) (Qvalue m2 e2))
  end.

Definition num_zero : number := Finite 0 0.

(** [Boolean(n)]: NaN and zero are falsy. *)
Definition num_truthy (n : number) : bool :=
  match n with
  | NaN => false
  | Infinity _ => true
  | Finite m _ => negb (m =? 0)
  end.

(** [parseFloat(s)]: leading white space is skipped, then the longest prefix
    that is a decimal literal is read: an optional sign, then [Infinity], or
    digits with an optional fraction and an optional exponent.  The result is
    the exact decimal, not its nearest double. *)
Fixpoint drop_spaces (s : str) : str :=
  match s with
  | c :: s' => if is_space c then drop_spaces s' else s
  | [] => []
  end.

Definition is_digit (c : N) : bool := (N.leb 48 c && N.leb c 57)%bool.

Definition digit_val (c : N) : Z := Z.of_N (c - 48).

(** Reads a run of digits: the accumulated value, how many digits were read,
    and the rest. *)
Fixpoint read_digits (acc : Z) (n : Z) (s : str) : Z * Z * str :=
  match s with
  | c :: s' =>
      if is_digit c then read_digits (acc * 10 + digit_val c) (n + 1) s'
      else (acc, n, s)
  | [] => (acc, n, s)
  end.

Fixpoint starts_with (p s : str) : bool :=
  match p, s with
  | [], _ => true
  | a :: p', b :: s' => (N.eqb a b && starts_with p' s')%bool
  | _ :: _, [] => false
  end.

(** The exponent part, [0] when there is none that is well formed. *)
Definition parse_exponent (s : str) : Z :=
  match s with
  | c :: s' =>
      if (N.eqb c 101 || N.eqb c 69)%bool then
        match s' with
        | sg :: s'' =>
            if (N.eqb sg 43 || N.eqb sg 45)%bool then
              let '(v, n, _) := read_digits 0 0 s'' in
              if n =? 0 then 0 else if N.eqb sg 45 then - v else v
            else
              let '(v, n, _) := read_digits 0 0 s' in
              if n =? 0 then 0 else v
        | [] => 0
        end
      else 0
  | [] => 0
  end.

Definition parse_unsigned (neg : bool) (s : str) : number :=
  if starts_with (lit "Infinity") s then Infinity neg
  else
    let sgn (m : Z) := if neg then - m else m in
    let '(ip, ni, r1) := read_digits 0 0 s in
    match r1 with
    | 46%N :: r2 =>
        let '(m, nf, r3) := read_digits ip 0 r2 in
        if ((ni =? 0) && (nf =? 0))%bool then NaN
        else Finite (sgn m) (parse_exponent r3 - nf)
    | _ => if ni =? 0 then NaN else Finite (sgn ip) (parse_exponent r1)
    end.

Definition parseFloat (s : str) : number :=
  match drop_spaces s with
  | c :: s' =>
      if N.eqb c 45 then parse_unsigned true s'
      else if N.eqb c 43 then parse_unsigned false s'
      else parse_unsigned false (c :: s')
  | [] => NaN
  end.

(** [String(n)]: the shortest decimal text of [n], in positional notation
    (the exponent notation that JavaScript switches to from 1e21 upward and
    below 1e-6 is outside the model). *)
Fixpoint strip_zeros (m : Z) (k : nat) : Z * nat :=
  match k with
  | O => (m, O)
  | S k' => if m mod 10 =? 0 then strip_zeros (m / 10) k' else (m, k)
  end.

Definition pad_zeros (k : nat) (s : str) : str :=
  repeat 48%N (k - length s)%nat ++ s.

Definition number_to_string (n : number) : str :=
  match n with
  | NaN => lit "NaN"
  | Infinity false => lit "Infinity"
  | Infinity true => lit "-Infinity"
  | Finite m e =>
      if 0 <=? e then int_to_string (m * 10 ^ e)
      else
        let '(m', k) := strip_zeros m (Z.to_nat (- e)) in
        match k with
        | O => int_to_string m'
        | S _ =>
            let p := 10 ^ Z.of_nat k in
            let a := Z.abs m' in
            (if m' <? 0 then [45%N] else []) ++ int_to_string (a / p)
            ++ [46%N] ++ pad_zeros k (int_to_string (a mod p))
        end
  end.

(** ** Regular expressions: the fragment the mapper uses

    A pattern is a sequence of atoms over classes of code units; [Star] and
    [Plus] are greedy and backtrack.  [match_here r s] is the number of code
    units of the match of [r] that starts at the head of [s]. *)

Inductive atom :=
| One (cls : N -> bool)
| Star (cls : N -> bool)
| Plus (cls : N -> bool)
| AtEnd.

Abbreviation regex := (list atom).

Fixpoint star (cls : N -> bool) (k : str -> option nat) (s : str) : option nat :=
  match s with
  | c :: s' =>
      if cls c then
        match star cls k s' with
        | Some n => Some (S n)
        | None => k s
        end
      else k s
  | [] => k s
  end.

Fixpoint match_here (r : regex) (s : str) : option nat :=
  match r with
  | [] => Some O
  | One cls :: r' =>
      match s with
      | c :: s' => if cls c then S <$> match_here r' s' else None
      | [] => None
      end
  | Star cls :: r' => star cls (match_here r') s
  | Plus cls :: r' =>
      match s with
      | c :: s' => if cls c then S <$> star cls (match_here r') s' else None
      | [] => None
      end
  | AtEnd :: r' =>
      match s with
      | [] => match_here r' []
      | _ :: _ => None
      end
  end.

(** [s.replace(/r/g, rep)], for patterns that match at least one code unit:
    the matches are taken left to right and do not overlap; [skip] counts the
    code units of the current match that are still to be dropped. *)
Fixpoint replace_from (r : regex) (rep : str) (skip : nat) (s : str) : str :=
  match s with
  | [] => []
  | c :: s' =>
      match skip with
      | S k => replace_from r rep k s'
      | O =>
          match match_here r s with
          | Some (S n) => rep ++ replace_from r rep n s'
          | _ => c :: replace_from r rep O s'
          end
      end
  end.

Definition replace_all (r : regex) (rep : str) (s : str) : str :=
  replace_from r rep O s.

(** [s.replace(/r/, rep)]: the first match only. *)
Fixpoint replace_first (r : regex) (rep : str) (s : str) : str :=
  match match_here r s with
  | Some n => rep ++ skipn n s
  | None =>
      match s with
      | c :: s' => c :: replace_first r rep s'
      | [] => []
      end
  end.

(** The pattern of a literal text. *)
Definition literal (p : str) : regex := map (fun c => One (N.eqb c)) p.

(** [s.trim()]. *)
Fixpoint trim_end (s : str) : str :=
  match s with
  | [] => []
  | c :: s' =>
      match trim_end s' with
      | [] => if is_space c then [] else [c]
      | t => c :: t
      end
  end.

Definition trim (s : str) : str := trim_end (drop_spaces s).

(** ** Text normalizer *)

(** [/<[^>]*>/] *)
Definition tag_pattern : regex :=
  [One (N.eqb 60); Star (fun c => negb (N.eqb c 62)); One (N.eqb 62)].

(** [/\s+/] *)
Definition spaces_pattern : regex := [Plus is_space].

(** [/\/$/] *)
Definition trailing_slash : regex := [One (N.eqb 47); AtEnd].

Definition stripHtml (html : str) : str :=
  trim
    (replace_all spaces_pattern (lit " ")
    (replace_all (literal (lit "&#39;")) (lit "'")
    (replace_all (literal (lit "&quot;")) [34%N]
    (replace_all (literal (lit "&gt;")) (lit ">")
    (replace_all (literal (lit "&lt;")) (lit "<")
    (replace_all (literal (lit "&amp;")) (lit "&")
    (replace_all (literal (lit "&nbsp;")) (lit " ")
    (replace_all tag_pattern (lit " ") html)))))))).

(** ** JSON text: [JSON.stringify] on the values the feed holds *)

Inductive jvalue :=
| JStr (s : str)
| JNum (z : Z)
| JBool (b : bool).

Definition hex_unit (d : N) : N :=
  if N.ltb d 10 then (48 + d)%N else (87 + d)%N.

(** A backslash, [u] and the four lowercase hexadecimal digits of [c]. *)
Definition unicode_escape (c : N) : str :=
  [92; 117; hex_unit (c / 4096 mod 16); hex_unit (c / 256 mod 16);
   hex_unit (c / 16 mod 16); hex_unit (c mod 16)]%N.

Definition is_lead (c : N) : bool := (N.leb 55296 c && N.leb c 56319)%bool.
Definition is_trail (c : N) : bool := (N.leb 56320 c && N.leb c 57343)%bool.

(** The escape of one code unit that is not part of a surrogate pair. *)
Definition quote_unit (c : N) : str :=
  if N.eqb c 8 then [92; 98]%N
  else if N.eqb c 9 then [92; 116]%N
  else if N.eqb c 10 then [92; 110]%N
  else if N.eqb c 12 then [92; 102]%N
  else if N.eqb c 13 then [92; 114]%N
  else if N.eqb c 34 then [92; 34]%N
  else if N.eqb c 92 then [92; 92]%N
  else if (N.ltb c 32 || is_lead c || is_trail c)%bool then unicode_escape c
  else [c].

(** The body of a quoted string: a surrogate pair is copied, a lone surrogate
    is escaped. *)
Fixpoint quote_units (s : str) : str :=
  match s with
  | [] => []
  | c :: s' =>
      if is_lead c then
        match s' with
        | d :: s'' =>
            if is_trail d then c :: d :: quote_units s''
            else quote_unit c ++ quote_units s'
        | [] => quote_unit c
        end
      else quote_unit c ++ quote_units s'
  end.

Definition quote (s : str) : str := 34%N :: quote_units s ++ [34%N].

Definition stringify_value (v : jvalue) : str :=
  match v with
  | JStr s => quote s
  | JNum z => int_to_string z
  | JBool true => lit "true"
  | JBool false => lit "false"
  end.

Definition stringify_member (kv : str * jvalue) : str :=
  quote (fst kv) ++ 58%N :: stringify_value (snd kv).

Definition stringify_object (fields : list (str * jvalue)) : str :=
  123%N :: join (lit ",") (map stringify_member fields) ++ [125%N].

(** ** Data model *)

Module SelectedOption.
Record t := mk { name : str; value : str }.
End SelectedOption.

(** [image] is the [url] of the variant's image; [barcode] is never read. *)
Module Variant.
Record t := mk {
  id : str;
  title : str;
  sku : option str;
  price : str;
  compareAtPrice : option str;
  availableForSale : bool;
  inventoryQuantity : option Z;
  inventoryPolicy : str;
  weight : option number;
  weightUnit : str;
  selectedOptions : list SelectedOption.t;
  image : option str
}.
End Variant.

(** [images] and [variants] are the [node]s of the [edges], in order; of an
    image only the [url] is kept. *)
Module Product.
Record t := mk {
  id : str;
  title : str;
  descriptionHtml : str;
  description : str;
  handle : str;
  vendor : str;
  productType : str;
  status : str;
  onlineStoreUrl : option str;
  images : list str;
  variants : list Variant.t
}.
End Product.

(** [primaryDomain] is [primaryDomain?.url], [billingAddress] is
    [billingAddress?.countryCodeV2]. *)
Module ShopInfo.
Record t := mk {
  name : str;
  url : str;
  primaryDomain : option str;
  currencyCode : str;
  billingAddress : option str
}.
End ShopInfo.

Module FeedSettings.
Record t := mk {
  shop : str;
  enable_search : bool;
  enable_checkout : bool;
  seller_name : option str;
  seller_url : option str;
  privacy_policy_url : option str;
  terms_of_service_url : option str;
  return_policy_url : option str;
  accepts_returns : bool;
  return_deadline_days : Z;
  accepts_exchanges : bool;
  store_country : str;
  target_countries : str
}.
End FeedSettings.

Inductive availability := in_stock | out_of_stock | preorder.

(** The fields of [OpenAIFeedItem] in the order the object literal of
    [mapVariantToFeedItem] creates its keys; an optional field that the
    literal leaves out is [None]. *)
Module Item.
Record t := mk {
  is_eligible_search : bool;
  is_eligible_checkout : bool;
  item_id : str;
  title : str;
  description : str;
  url : str;
  condition : str;
  product_category : str;
  brand : str;
  image_url : str;
  additional_image_urls : option str;
  price : str;
  sale_price : option str;
  availability : availability;
  group_id : str;
  listing_has_variations : bool;
  variant_dict : option str;
  item_group_title : str;
  color : option str;
  size : option str;
  offer_id : option str;
  weight : option str;
  item_weight_unit : option str;
  seller_name : str;
  seller_url : str;
  seller_privacy_policy : option str;
  seller_tos : option str;
  accepts_returns : option bool;
  return_deadline_in_days : option Z;
  accepts_exchanges : option bool;
  return_policy : option str;
  target_countries : str;
  store_country : str
}.
End Item.

(** ** Field derivers *)

Definition DefaultTitle : str := lit "Default Title".

Definition extractShopifyId (gid : str) : str :=
  List.last (split 47 gid) [].

Definition getAvailability (variant : Variant.t) : availability :=
  if str_eqb (Variant.inventoryPolicy variant) (lit "CONTINUE") then in_stock
  else if Variant.availableForSale variant then in_stock
  else if match Variant.inventoryQuantity variant with
          | Some q => q <=? 0
          | None => false
          end
       then out_of_stock
  else if Variant.availableForSale variant then in_stock else out_of_stock.

Definition buildProductUrl (shopUrl handle : str) : str :=
  let baseUrl := replace_first trailing_slash [] shopUrl in
  baseUrl ++ lit "/products/" ++ handle.

(** [unitMap[unit] || "lb"], on the keys the literal defines. *)
Definition mapWeightUnit (unit : str) : str :=
  if str_eqb unit (lit "KILOGRAMS") then lit "kg"
  else if str_eqb unit (lit "GRAMS") then lit "g"
  else if str_eqb unit (lit "POUNDS") then lit "lb"
  else if str_eqb unit (lit "OUNCES") then lit "oz"
  else lit "lb".

(** [dict[k] = v] on an object whose keys are kept in insertion order (option
    names that read as array indices, which JavaScript orders first, are
    outside the model). *)
Fixpoint dict_set (k v : str) (dict : list (str * str)) : list (str * str) :=
  match dict with
  | [] => [(k, v)]
  | (k', v') :: dict' =>
      if str_eqb k' k then (k', v) :: dict' else (k', v') :: dict_set k v dict'
  end.

(** [opts[0].value === "Default Title"], false on the empty list. *)
Definition first_is_default (opts : list SelectedOption.t) : bool :=
  match opts with
  | o :: _ => str_eqb (SelectedOption.value o) DefaultTitle
  | [] => false
  end.

Definition buildVariantDict (variant : Variant.t) : option (list (str * str)) :=
  let opts := Variant.selectedOptions variant in
  if (Nat.eqb (length opts) 0
      || (Nat.eqb (length opts) 1 && first_is_default opts))%bool
  then None
  else Some (fold_left
               (fun dict opt =>
                  dict_set (toLowerCase (SelectedOption.name opt))
                           (SelectedOption.value opt) dict)
               opts []).

Definition extractOption (variant : Variant.t) (optionName : str) : option str :=
  match List.find
          (fun o => str_eqb (toLowerCase (SelectedOption.name o))
                            (toLowerCase optionName))
          (Variant.selectedOptions variant) with
  | Some option =>
      if str_eqb (SelectedOption.value option) DefaultTitle then None
      else Some (SelectedOption.value option)
  | None => None
  end.

(** [...(x && { key: x })] for [x : string | null | undefined]: the key is
    present when [x] is truthy. *)
Definition keep_truthy (x : option str) : option str :=
  match x with
  | Some s => if truthy s then Some s else None
  | None => None
  end.

Definition when {A} (c : bool) (x : A) : option A :=
  if c then Some x else None.

(** ** Record mapper *)

(** [variantImage || productImages[0]], or the empty string. *)
Definition mainImage (product : Product.t) (variant : Variant.t) : str :=
  or_opt (Variant.image variant) (or_opt (head (Product.images product)) []).

Definition mapVariantToFeedItem (product : Product.t) (variant : Variant.t)
    (shopInfo : ShopInfo.t) (settings : FeedSettings.t) : option Item.t :=
  if negb (str_eqb (Product.status product) (lit "ACTIVE")) then None
  else
    let productId := extractShopifyId (Product.id product) in
    let variantId := extractShopifyId (Variant.id variant) in
    let shopUrl :=
      or_opt (FeedSettings.seller_url settings)
        (or_opt (ShopInfo.primaryDomain shopInfo) (ShopInfo.url shopInfo)) in
    let cleanShopUrl := replace_first trailing_slash [] shopUrl in
    let productUrl :=
      or_opt (Product.onlineStoreUrl product)
        (buildProductUrl cleanShopUrl (Product.handle product)) in
    let productImages := Product.images product in
    let mainImage := mainImage product variant in
    if negb (truthy mainImage) then None
    else
      let additionalImages :=
        List.filter (fun url => negb (str_eqb url mainImage)) productImages in
      let description :=
        or_str (Product.description product)
          (or_str (stripHtml (Product.descriptionHtml product))
             (Product.title product)) in
      let currency := or_str (ShopInfo.currencyCode shopInfo) (lit "USD") in
      let hasVariations :=
        (Nat.ltb 1 (length (Product.variants product))
         || (Nat.ltb 0 (length (Variant.selectedOptions variant))
             && negb (first_is_default (Variant.selectedOptions variant))))%bool in
      let variantDict := buildVariantDict variant in
      let basePrice := Variant.price variant ++ lit " " ++ currency in
      let discount :=
        match Variant.compareAtPrice variant with
        | Some compareAt =>
            when (truthy compareAt
                  && num_gt (parseFloat compareAt)
                            (parseFloat (Variant.price variant)))%bool
                 compareAt
        | None => None
        end in
      let heavy :=
        match Variant.weight variant with
        | Some w => (num_truthy w && num_gt w num_zero)%bool
        | None => false
        end in
      let returns := truthy_opt (FeedSettings.return_policy_url settings) in
      Some {|
        Item.is_eligible_search := FeedSettings.enable_search settings;
        Item.is_eligible_checkout := FeedSettings.enable_checkout settings;
        Item.item_id :=
          or_opt (Variant.sku variant) (productId ++ lit "-" ++ variantId);
        Item.title :=
          if hasVariations
          then Product.title product ++ lit " - " ++ Variant.title variant
          else Product.title product;
        Item.description := description;
        Item.url := productUrl;
        Item.condition := lit "new";
        Item.product_category :=
          or_str (Product.productType product) (lit "Uncategorized");
        Item.brand :=
          or_str (Product.vendor product)
            (or_opt (FeedSettings.seller_name settings) []);
        Item.image_url := mainImage;
        Item.additional_image_urls :=
          when (Nat.ltb 0 (length additionalImages))
               (join (lit ",") additionalImages);
        Item.price :=
          match discount with
          | Some compareAt => compareAt ++ lit " " ++ currency
          | None => basePrice
          end;
        Item.sale_price := (fun _ => basePrice) <$> discount;
        Item.availability := getAvailability variant;
        Item.group_id := productId;
        Item.listing_has_variations := hasVariations;
        Item.variant_dict :=
          (fun dict =>
             stringify_object (map (fun kv => (fst kv, JStr (snd kv))) dict))
          <$> variantDict;
        Item.item_group_title := Product.title product;
        Item.color := keep_truthy (extractOption variant (lit "color"));
        Item.size := keep_truthy (extractOption variant (lit "size"));
        Item.offer_id :=
          Some (or_opt (Variant.sku variant) (productId ++ lit "-" ++ variantId));
        Item.weight :=
          if heavy then number_to_string <$> Variant.weight variant else None;
        Item.item_weight_unit :=
          when heavy (mapWeightUnit (Variant.weightUnit variant));
        Item.seller_name :=
          or_opt (FeedSettings.seller_name settings)
            (or_str (ShopInfo.name shopInfo) []);
        Item.seller_url := cleanShopUrl;
        Item.seller_privacy_policy :=
          keep_truthy (FeedSettings.privacy_policy_url settings);
        Item.seller_tos :=
          keep_truthy (FeedSettings.terms_of_service_url settings);
        Item.accepts_returns :=
          when returns (FeedSettings.accepts_returns settings);
        Item.return_deadline_in_days :=
          when returns (FeedSettings.return_deadline_days settings);
        Item.accepts_exchanges :=
          when returns (FeedSettings.accepts_exchanges settings);
        Item.return_policy :=
          if returns then FeedSettings.return_policy_url settings else None;
        Item.target_countries :=
          or_str (FeedSettings.target_countries settings) (lit "US");
        Item.store_country :=
          or_str (FeedSettings.store_country settings)
            (or_opt (ShopInfo.billingAddress shopInfo) (lit "US"))
      |}.

(** ** Batch mapper and serializer *)

Definition mapProductsToFeed (products : list Product.t)
    (shopInfo : ShopInfo.t) (settings : FeedSettings.t) : list Item.t :=
  fold_left
    (fun feedItems product =>
       fold_left
         (fun feedItems variant =>
            match mapVariantToFeedItem product variant shopInfo settings with
            | Some item => feedItems ++ [item]
            | None => feedItems
            end)
         (Product.variants product) feedItems)
    products [].

(** The records one product contributes: those of its variants that are not
    skipped, in order. *)
Definition records_of (shopInfo : ShopInfo.t) (settings : FeedSettings.t)
    (product : Product.t) : list Item.t :=
  omap (fun variant => mapVariantToFeedItem product variant shopInfo settings)
       (Product.variants product).

Definition availability_text (a : availability) : str :=
  match a with
  | in_stock => lit "in_stock"
  | out_of_stock => lit "out_of_stock"
  | preorder => lit "preorder"
  end.

Definition required (key : string) (v : jvalue) : list (str * jvalue) :=
  [(lit key, v)].

Definition optional {A} (key : string) (f : A -> jvalue) (v : option A)
    : list (str * jvalue) :=
  match v with
  | Some x => [(lit key, f x)]
  | None => []
  end.

(** The own keys of a feed item, in creation order, with their values. *)
Definition item_fields (item : Item.t) : list (str * jvalue) :=
  required "is_eligible_search" (JBool (Item.is_eligible_search item))
  ++ required "is_eligible_checkout" (JBool (Item.is_eligible_checkout item))
  ++ required "item_id" (JStr (Item.item_id item))
  ++ required "title" (JStr (Item.title item))
  ++ required "description" (JStr (Item.description item))
  ++ required "url" (JStr (Item.url item))
  ++ required "condition" (JStr (Item.condition item))
  ++ required "product_category" (JStr (Item.product_category item))
  ++ required "brand" (JStr (Item.brand item))
  ++ required "image_url" (JStr (Item.image_url item))
  ++ optional "additional_image_urls" JStr (Item.additional_image_urls item)
  ++ required "price" (JStr (Item.price item))
  ++ optional "sale_price" JStr (Item.sale_price item)
  ++ required "availability" (JStr (availability_text (Item.availability item)))
  ++ required "group_id" (JStr (Item.group_id item))
  ++ required "listing_has_variations" (JBool (Item.listing_has_variations item))
  ++ optional "variant_dict" JStr (Item.variant_dict item)
  ++ required "item_group_title" (JStr (Item.item_group_title item))
  ++ optional "color" JStr (Item.color item)
  ++ optional "size" JStr (Item.size item)
  ++ optional "offer_id" JStr (Item.offer_id item)
  ++ optional "weight" JStr (Item.weight item)
  ++ optional "item_weight_unit" JStr (Item.item_weight_unit item)
  ++ required "seller_name" (JStr (Item.seller_name item))
  ++ required "seller_url" (JStr (Item.seller_url item))
  ++ optional "seller_privacy_policy" JStr (Item.seller_privacy_policy item)
  ++ optional "seller_tos" JStr (Item.seller_tos item)
  ++ optional "accepts_returns" JBool (Item.accepts_returns item)
  ++ optional "return_deadline_in_days" JNum (Item.return_deadline_in_days item)
  ++ optional "accepts_exchanges" JBool (Item.accepts_exchanges item)
  ++ optional "return_policy" JStr (Item.return_policy item)
  ++ required "target_countries" (JStr (Item.target_countries item))
  ++ required "store_country" (JStr (Item.store_country item)).

(** [JSON.stringify(item)] *)
Definition stringify_item (item : Item.t) : str :=
  stringify_object (item_fields item).

Definition feedItemsToJsonl (items : list Item.t) : str :=
  join [10%N] (map stringify_item items).

(** ** Persistent store

    The D1 database holds the two tables of the migration, both with a
    UNIQUE [shop] column, which is the key of the maps below (the surrogate
    [id] key is never read and is left out).  A row of [feed_settings] is the
    object D1 hands to JavaScript: a value per column. *)

Inductive sqlval :=
| Null
| Int (z : Z)
| Text (s : str).

Module Col.
Inductive t :=
| enable_search | enable_checkout
| seller_name | seller_url
| privacy_policy_url | terms_of_service_url | return_policy_url
| accepts_returns | return_deadline_days | accepts_exchanges
| store_country | target_countries
| feed_generated_at | product_count
| created_at | updated_at.

Definition index (c : t) : nat :=
  match c with
  | enable_search => 0 | enable_checkout => 1
  | seller_name => 2 | seller_url => 3
  | privacy_policy_url => 4 | terms_of_service_url => 5
  | return_policy_url => 6
  | accepts_returns => 7 | return_deadline_days => 8 | accepts_exchanges => 9
  | store_country => 10 | target_countries => 11
  | feed_generated_at => 12 | product_count => 13
  | created_at => 14 | updated_at => 15
  end%nat.

Definition of_index (n : nat) : t :=
  match n with
  | 0 => enable_search | 1 => enable_checkout
  | 2 => seller_name | 3 => seller_url
  | 4 => privacy_policy_url | 5 => terms_of_service_url
  | 6 => return_policy_url
  | 7 => accepts_returns | 8 => return_deadline_days | 9 => accepts_exchanges
  | 10 => store_country | 11 => target_countries
  | 12 => feed_generated_at | 13 => product_count
  | 14 => created_at | _ => updated_at
  end%nat.

#[export] Instance eq_dec : EqDecision t.
Proof. solve_decision. Defined.

#[export] Instance countable : Countable t.
Proof. apply (inj_countable' index of_index). by intros []. Defined.
End Col.
Export (hints) Col.

Module CacheRow.
Record t := mk {
  feed_data : option str;
  product_count : option Z;
  generated_at : Z
}.
End CacheRow.

(** The statements the service prepares, with their bound values. *)
Inductive statement :=
| SelectSettings (shop : str)
| InsertSettings (shop : str)
| UpdateSettings (sets : list (Col.t * sqlval)) (shop : str)
| SelectCache (shop : str)
| ReplaceCache (shop : str) (feed_data : str) (product_count generated_at : Z).

Record D1Database := {
  feed_settings : gmap str (gmap Col.t sqlval);
  feed_cache : gmap str CacheRow.t;
  journal : list statement
}.

Inductive result (A : Type) :=
| Ok (a : A)
| Throw (message : str).
Arguments Ok {A} a.
Arguments Throw {A} message.

(** What the service reads from outside the store during one call: which of
    the statements it issues fail (by position in the journal), the clock of
    SQLite in seconds, [Date.now()], and what the two catalog fetches
    resolve to. *)
Record World := {
  fault : nat -> bool;
  unixepoch : Z;
  Date_now : Z;
  fetchShopInfo : result ShopInfo.t;
  fetchAllProducts : result (list Product.t)
}.

(** An asynchronous computation over the store: a thrown error keeps the
    writes made before it. *)
Definition IO (A : Type) : Type := D1Database -> result A * D1Database.

Definition ret {A} (a : A) : IO A := fun db => (Ok a, db).

Definition bind {A B} (m : IO A) (k : A -> IO B) : IO B := fun db =>
  match m db with
  | (Ok a, db') => k a db'
  | (Throw e, db') => (Throw e, db')
  end.

Notation "x <- m ;; k" := (bind m (fun x => k))
  (at level 100, m at next level, right associativity).

(** Reads the store without a statement of its own. *)
Definition peek {A} (f : D1Database -> A) : IO A := fun db => (Ok (f db), db).

(** The row [INSERT INTO feed_settings (shop, enable_search, enable_checkout,
    store_country, target_countries) VALUES (?, 1, 0, 'US', 'US')] creates:
    the other columns take the defaults of the migration. *)
Definition inserted_row (w : World) : gmap Col.t sqlval :=
  list_to_map
    [(Col.enable_search, Int 1); (Col.enable_checkout, Int 0);
     (Col.seller_name, Null); (Col.seller_url, Null);
     (Col.privacy_policy_url, Null); (Col.terms_of_service_url, Null);
     (Col.return_policy_url, Null);
     (Col.accepts_returns, Int 1); (Col.return_deadline_days, Int 30);
     (Col.accepts_exchanges, Int 1);
     (Col.store_country, Text (lit "US"));
     (Col.target_countries, Text (lit "US"));
     (Col.feed_generated_at, Null); (Col.product_count, Int 0);
     (Col.created_at, Int (unixepoch w * 1000));
     (Col.updated_at, Int (unixepoch w * 1000))].

(** [SET col = ?, ...] on one row, left to right. *)
Definition assign (sets : list (Col.t * sqlval)) (row : gmap Col.t sqlval)
    : gmap Col.t sqlval :=
  fold_left (fun row cv => <[fst cv := snd cv]> row) sets row.

(** Runs one prepared statement: it is entered in the journal, then it
    either fails as a whole or takes effect. *)
Definition run (w : World) (st : statement) : IO unit := fun db =>
  let logged fs fc :=
    {| feed_settings := fs; feed_cache := fc; journal := journal db ++ [st] |} in
  let same := logged (feed_settings db) (feed_cache db) in
  if fault w (length (journal db)) then (Throw (lit "D1_ERROR"), same)
  else
    match st with
    | SelectSettings _ | SelectCache _ => (Ok tt, same)
    | InsertSettings shop =>
        match feed_settings db !! shop with
        | Some _ =>
            (Throw (lit "UNIQUE constraint failed: feed_settings.shop"), same)
        | None =>
            (Ok tt, logged (<[shop := inserted_row w]> (feed_settings db))
                           (feed_cache db))
        end
    | UpdateSettings sets shop =>
        (Ok tt, logged (alter (assign sets) shop (feed_settings db))
                       (feed_cache db))
    | ReplaceCache shop data n t =>
        (Ok tt, logged (feed_settings db)
                       (<[shop := CacheRow.mk (Some data) (Some n) t]>
                          (feed_cache db)))
    end.

(** [.first()] on the two SELECT statements. *)
Definition first_settings (w : World) (shop : str)
    : IO (option (gmap Col.t sqlval)) :=
  _ <- run w (SelectSettings shop) ;;
  peek (fun db => feed_settings db !! shop).

Definition first_cache (w : World) (shop : str) : IO (option CacheRow.t) :=
  _ <- run w (SelectCache shop) ;;
  peek (fun db => feed_cache db !! shop).

(** ** Settings store *)

(** [Boolean(row.col)] *)
Definition Boolean (v : option sqlval) : bool :=
  match v with
  | Some (Int z) => negb (z =? 0)
  | Some (Text s) => truthy s
  | Some Null | None => false
  end.

(** [row.col as string | null] *)
Definition as_text (v : option sqlval) : option str :=
  match v with
  | Some (Text s) => Some s
  | _ => None
  end.

(** [(row.col as number) || d] *)
Definition number_or (v : option sqlval) (d : Z) : Z :=
  match v with
  | Some (Int z) => if z =? 0 then d else z
  | _ => d
  end.

(** The object built from an existing row ([row.shop] is the key the row was
    found under). *)
Definition settings_of_row (shop : str) (row : gmap Col.t sqlval)
    : FeedSettings.t :=
  {| FeedSettings.shop := shop;
     FeedSettings.enable_search := Boolean (row !! Col.enable_search);
     FeedSettings.enable_checkout := Boolean (row !! Col.enable_checkout);
     FeedSettings.seller_name := as_text (row !! Col.seller_name);
     FeedSettings.seller_url := as_text (row !! Col.seller_url);
     FeedSettings.privacy_policy_url := as_text (row !! Col.privacy_policy_url);
     FeedSettings.terms_of_service_url :=
       as_text (row !! Col.terms_of_service_url);
     FeedSettings.return_policy_url := as_text (row !! Col.return_policy_url);
     FeedSettings.accepts_returns := Boolean (row !! Col.accepts_returns);
     FeedSettings.return_deadline_days :=
       number_or (row !! Col.return_deadline_days) 30;
     FeedSettings.accepts_exchanges := Boolean (row !! Col.accepts_exchanges);
     FeedSettings.store_country :=
       or_opt (as_text (row !! Col.store_country)) (lit "US");
     FeedSettings.target_countries :=
       or_opt (as_text (row !! Col.target_countries)) (lit "US") |}.

(** The object returned after the insert. *)
Definition default_settings (shop : str) : FeedSettings.t :=
  {| FeedSettings.shop := shop;
     FeedSettings.enable_search := true;
     FeedSettings.enable_checkout := false;
     FeedSettings.seller_name := None;
     FeedSettings.seller_url := None;
     FeedSettings.privacy_policy_url := None;
     FeedSettings.terms_of_service_url := None;
     FeedSettings.return_policy_url := None;
     FeedSettings.accepts_returns := true;
     FeedSettings.return_deadline_days := 30;
     FeedSettings.accepts_exchanges := true;
     FeedSettings.store_country := lit "US";
     FeedSettings.target_countries := lit "US" |}.

Definition getFeedSettings (w : World) (shop : str) : IO FeedSettings.t :=
  row <- first_settings w shop ;;
  match row with
  | Some row => ret (settings_of_row shop row)
  | None =>
      _ <- run w (InsertSettings shop) ;;
      ret (default_settings shop)
  end.

(** [Partial<FeedSettings>]: a field is [None] when it is [undefined]; the
    value of a nullable field may itself be [null]. *)
Module Updates.
Record t := mk {
  shop : option str;
  enable_search : option bool;
  enable_checkout : option bool;
  seller_name : option (option str);
  seller_url : option (option str);
  privacy_policy_url : option (option str);
  terms_of_service_url : option (option str);
  return_policy_url : option (option str);
  accepts_returns : option bool;
  return_deadline_days : option Z;
  accepts_exchanges : option bool;
  store_country : option str;
  target_countries : option str
}.
End Updates.

Definition flag (b : bool) : sqlval := Int (if b then 1 else 0).

Definition nullable (s : option str) : sqlval :=
  match s with
  | Some t => Text t
  | None => Null
  end.

(** [if (updates.f !== undefined) { fields.push("col = ?"); values.push(v) }] *)
Definition push {A} (col : Col.t) (bound : A -> sqlval) (field : option A)
    (fields : list (Col.t * sqlval)) : list (Col.t * sqlval) :=
  match field with
  | Some v => fields ++ [(col, bound v)]
  | None => fields
  end.

(** The [fields] and [values] arrays after the twelve tests. *)
Definition update_fields (updates : Updates.t) : list (Col.t * sqlval) :=
  let fields := [] in
  let fields := push Col.enable_search flag (Updates.enable_search updates) fields in
  let fields := push Col.enable_checkout flag (Updates.enable_checkout updates) fields in
  let fields := push Col.seller_name nullable (Updates.seller_name updates) fields in
  let fields := push Col.seller_url nullable (Updates.seller_url updates) fields in
  let fields := push Col.privacy_policy_url nullable (Updates.privacy_policy_url updates) fields in
  let fields := push Col.terms_of_service_url nullable (Updates.terms_of_service_url updates) fields in
  let fields := push Col.return_policy_url nullable (Updates.return_policy_url updates) fields in
  let fields := push Col.accepts_returns flag (Updates.accepts_returns updates) fields in
  let fields := push Col.return_deadline_days Int (Updates.return_deadline_days updates) fields in
  let fields := push Col.accepts_exchanges flag (Updates.accepts_exchanges updates) fields in
  let fields := push Col.store_country Text (Updates.store_country updates) fields in
  let fields := push Col.target_countries Text (Updates.target_countries updates) fields in
  fields.

Definition updateFeedSettings (w : World) (shop : str) (updates : Updates.t)
    : IO unit :=
  _ <- getFeedSettings w shop ;;
  let fields := update_fields updates in
  if Nat.eqb (length fields) 0 then ret tt
  else
    let fields := fields ++ [(Col.updated_at, Int (Date_now w))] in
    run w (UpdateSettings fields shop).

(** ** Feed cache and orchestrator *)

Record GenerateResult := {
  success : bool;
  productCount : Z;
  error : option str
}.

(** [await Promise.all([fetch, io])] where [fetch] touches no table: the
    store computation runs to its end whatever the fetch resolves to, and the
    rejection of either one rejects the pair. *)
Definition Promise_all {A B} (fetch : result A) (io : IO B) : IO (A * B) :=
  fun db =>
    match fetch, io db with
    | Ok a, (Ok b, db') => (Ok (a, b), db')
    | Throw e, (_, db') => (Throw e, db')
    | Ok _, (Throw e, db') => (Throw e, db')
    end.

(** An [await] on a fetch that touches no table. *)
Definition await {A} (fetch : result A) : IO A := fun db => (fetch, db).

Definition generateFeed (w : World) (shop : str)
    : D1Database -> GenerateResult * D1Database :=
  fun db =>
    let attempt : IO Z :=
      pair <- Promise_all (fetchShopInfo w) (getFeedSettings w shop) ;;
      let shopInfo := fst pair in
      let settings := snd pair in
      products <- await (fetchAllProducts w) ;;
      let feedItems := mapProductsToFeed products shopInfo settings in
      let jsonl := feedItemsToJsonl feedItems in
      let now := Date_now w in
      let count := Z.of_nat (length feedItems) in
      _ <- run w (ReplaceCache shop jsonl count now) ;;
      _ <- run w (UpdateSettings
                    [(Col.feed_generated_at, Int now);
                     (Col.product_count, Int count);
                     (Col.updated_at, Int now)] shop) ;;
      ret count in
    match attempt db with
    | (Ok count, db') =>
        ({| success := true; productCount := count; error := None |}, db')
    | (Throw message, db') =>
        ({| success := false; productCount := 0; error := Some message |}, db')
    end.

Module Cached.
Record t := mk {
  feedData : str;
  productCount : option Z;
  generatedAt : Z
}.
End Cached.

Definition getCachedFeed (w : World) (shop : str) : IO (option Cached.t) :=
  row <- first_cache w shop ;;
  match row with
  | None => ret None
  | Some row =>
      match CacheRow.feed_data row with
      | Some data =>
          if negb (truthy data) then ret None
          else ret (Some {|
                 Cached.feedData := data;
                 Cached.productCount := CacheRow.product_count row;
                 Cached.generatedAt := CacheRow.generated_at row
               |})
      | None => ret None
      end
  end.

(** The cache row a generation writes for the given records. *)
Definition generated_row (w : World) (items : list Item.t) : CacheRow.t :=
  CacheRow.mk (Some (feedItemsToJsonl items))
              (Some (Z.of_nat (length items))) (Date_now w).

(** The SET list of the stamp that ends a generation. *)
Definition stamp (w : World) (items : list Item.t) : list (Col.t * sqlval) :=
  [(Col.feed_generated_at, Int (Date_now w));
   (Col.product_count, Int (Z.of_nat (length items)));
   (Col.updated_at, Int (Date_now w))].

(** ** The text normalizer in the words of the specification

    A second definition of the normalizer, written as one walk per step
    instead of through patterns, to compare [stripHtml] with. *)
Module Spec.

(** Is there a [>] ahead? *)
Definition has_close (s : str) : bool := existsb (N.eqb 62) s.

(** Puts [sep] in the place of every tag span: a span runs from a [<] that
    has a [>] ahead to the first such [>]. *)
Fixpoint cut_tags (sep : str) (inside : bool) (s : str) : str :=
  match s with
  | [] => []
  | c :: s' =>
      if inside then cut_tags sep (negb (N.eqb c 62)) s'
      else if (N.eqb c 60 && has_close s')%bool then sep ++ cut_tags sep true s'
      else c :: cut_tags sep false s'
  end.

(** Puts [text] in the place of every occurrence of [entity], left to right;
    [skip] counts the code units of the occurrence still to be dropped. *)
Fixpoint decode_entity (entity text : str) (skip : nat) (s : str) : str :=
  match s with
  | [] => []
  | c :: s' =>
      match skip with
      | S k => decode_entity entity text k s'
      | O =>
          if starts_with entity s
          then text ++ decode_entity entity text (length entity - 1) s'
          else c :: decode_entity entity text O s'
      end
  end.

(** The six entities, in the order they are decoded. *)
Definition entities : list (str * str) :=
  [(lit "&nbsp;", lit " "); (lit "&amp;", lit "&"); (lit "&lt;", lit "<");
   (lit "&gt;", lit ">"); (lit "&quot;", [34%N]); (lit "&#39;", lit "'")].

Definition decode (s : str) : str :=
  fold_left (fun s et => decode_entity (fst et) (snd et) O s) entities s.

(** Every run of white space becomes one space. *)
Fixpoint collapse (after_space : bool) (s : str) : str :=
  match s with
  | [] => []
  | c :: s' =>
      if is_space c
      then (if after_space then [] else [32%N]) ++ collapse true s'
      else c :: collapse false s'
  end.

(** The normalizer as the specification states it: tag spans are removed. *)
Definition stripMarkup (html : str) : str :=
  trim (collapse false (decode (cut_tags [] false html))).

(** The same with a space left in the place of each tag span. *)
Definition stripMarkup_spaced (html : str) : str :=
  trim (collapse false (decode (cut_tags (lit " ") false html))).

End Spec.

(** ** Measures used to relate the patterns to the walks *)

(** The number of code units up to and including the first [>]. *)
Fixpoint close_len (s : str) : option nat :=
  match s with
  | [] => None
  | c :: s' => if N.eqb c 62 then Some 1%nat else S <$> close_len s'
  end.

(** The length of the run of white space at the head. *)
Fixpoint space_run (s : str) : nat :=
  match s with
  | c :: s' => if is_space c then S (space_run s') else O
  | [] => O
  end.

(** A text in which white space only occurs as single plain spaces between
    other code units. *)
Definition starts_clean (s : str) : bool :=
  match s with
  | c :: _ => negb (is_space c)
  | [] => true
  end.

Fixpoint single_spaced (s : str) : bool :=
  match s with
  | c :: s' =>
      ((negb (is_space c) || (N.eqb c 32 && starts_clean s'))
       && single_spaced s')%bool
  | [] => true
  end.

Definition normalized (s : str) : bool :=
  (starts_clean s && single_spaced s && negb (is_space (List.last s 0%N)))%bool.

(** ** Reading a line of the feed back

    What it means for a line to be parseable as a JSON object: a reader of
    the JSON texts of objects whose members are strings, integers and
    booleans, without insignificant white space. *)
Module Json.

Definition unhex (c : N) : option N :=
  if (N.leb 48 c && N.leb c 57)%bool then Some (c - 48)%N
  else if (N.leb 97 c && N.leb c 102)%bool then Some (c - 87)%N
  else if (N.leb 65 c && N.leb c 70)%bool then Some (c - 55)%N
  else None.

(** The code unit a two-character escape stands for. *)
Definition unescape (e : N) : option N :=
  if N.eqb e 34 then Some 34%N
  else if N.eqb e 92 then Some 92%N
  else if N.eqb e 47 then Some 47%N
  else if N.eqb e 98 then Some 8%N
  else if N.eqb e 102 then Some 12%N
  else if N.eqb e 110 then Some 10%N
  else if N.eqb e 114 then Some 13%N
  else if N.eqb e 116 then Some 9%N
  else None.

Definition hex4 (h1 h2 h3 h4 : N) : option N :=
  match unhex h1, unhex h2, unhex h3, unhex h4 with
  | Some a, Some b, Some c, Some d => Some (a * 4096 + b * 256 + c * 16 + d)%N
  | _, _, _, _ => None
  end.

Definition cons_fst {A B} (a : A) (r : list A * B) : list A * B :=
  (a :: fst r, snd r).

(** Reads a string after its opening quote: the text and what follows the
    closing quote. *)
Fixpoint read_string (s : str) : option (str * str) :=
  match s with
  | [] => None
  | c :: s' =>
      if N.eqb c 34 then Some ([], s')
      else if N.eqb c 92 then
        match s' with
        | e :: s'' =>
            if N.eqb e 117 then
              match s'' with
              | h1 :: h2 :: h3 :: h4 :: s''' =>
                  match hex4 h1 h2 h3 h4 with
                  | Some u => cons_fst u <$> read_string s'''
                  | None => None
                  end
              | _ => None
              end
            else
              match unescape e with
              | Some u => cons_fst u <$> read_string s''
              | None => None
              end
        | [] => None
        end
      else if N.ltb c 32 then None
      else cons_fst c <$> read_string s'
  end.

(** Reads a run of digits as a decimal numeral. *)
Fixpoint read_uint (s : str) : Decimal.uint * str :=
  match s with
  | [] => (Nil, [])
  | c :: s' =>
      let more (k : Decimal.uint -> Decimal.uint) :=
        (k (fst (read_uint s')), snd (read_uint s')) in
      if N.eqb c 48 then more D0 else if N.eqb c 49 then more D1
      else if N.eqb c 50 then more D2 else if N.eqb c 51 then more D3
      else if N.eqb c 52 then more D4 else if N.eqb c 53 then more D5
      else if N.eqb c 54 then more D6 else if N.eqb c 55 then more D7
      else if N.eqb c 56 then more D8 else if N.eqb c 57 then more D9
      else (Nil, s)
  end.

(** A JSON integer has at least one digit and no leading zero. *)
Definition well_formed (d : Decimal.uint) : bool :=
  match d with
  | Nil => false
  | D0 Nil => true
  | D0 _ => false
  | _ => true
  end.

Definition signed (negative : bool) (s : str) : option (Z * str) :=
  let d := fst (read_uint s) in
  if well_formed d
  then Some (Z.of_int (if negative then Decimal.Neg d else Decimal.Pos d),
             snd (read_uint s))
  else None.

Definition read_number (s : str) : option (Z * str) :=
  match s with
  | c :: s' => if N.eqb c 45 then signed true s' else signed false s
  | [] => None
  end.

Definition read_value (s : str) : option (jvalue * str) :=
  match s with
  | c :: s' =>
      if N.eqb c 34 then prod_map JStr id <$> read_string s'
      else if starts_with (lit "true") s then Some (JBool true, skipn 4 s)
      else if starts_with (lit "false") s then Some (JBool false, skipn 5 s)
      else prod_map JNum id <$> read_number s
  | [] => None
  end.

(** The rest of [s] after the code unit [c], which must come first. *)
Definition expect (c : N) (s : str) : option str :=
  match s with
  | d :: s' => if N.eqb d c then Some s' else None
  | [] => None
  end.

(** Reads the members of an object up to its closing brace. *)
Fixpoint read_members (fuel : nat) (s : str)
    : option (list (str * jvalue) * str) :=
  match fuel with
  | O => None
  | S fuel' =>
      s1 ← expect 34 s;
      ks ← read_string s1;
      s2 ← expect 58 (snd ks);
      vs ← read_value s2;
      match snd vs with
      | c :: s3 =>
          if N.eqb c 44
          then cons_fst (fst ks, fst vs) <$> read_members fuel' s3
          else if N.eqb c 125 then Some ([(fst ks, fst vs)], s3)
          else None
      | [] => None
      end
  end.

Definition parse_object (s : str) : option (list (str * jvalue)) :=
  s1 ← expect 123 s;
  match expect 125 s1 with
  | Some [] => Some []
  | _ =>
      ms ← read_members (length s1) s1;
      match snd ms with
      | [] => Some (fst ms)
      | _ :: _ => None
      end
  end.

End Json.

(** A code unit that is not a control character. *)
Definition printable (c : N) : Prop := (32 <= c)%N.

(** ** The partial update in the words of the specification *)

(** The value an update stores in a column: that of the field of the same
    name when the field is present, a boolean as 0 or 1. *)
Definition written (updates : Updates.t) (c : Col.t) : option sqlval :=
  match c with
  | Col.enable_search => flag <$> Updates.enable_search updates
  | Col.enable_checkout => flag <$> Updates.enable_checkout updates
  | Col.seller_name => nullable <$> Updates.seller_name updates
  | Col.seller_url => nullable <$> Updates.seller_url updates
  | Col.privacy_policy_url => nullable <$> Updates.privacy_policy_url updates
  | Col.terms_of_service_url => nullable <$> Updates.terms_of_service_url updates
  | Col.return_policy_url => nullable <$> Updates.return_policy_url updates
  | Col.accepts_returns => flag <$> Updates.accepts_returns updates
  | Col.return_deadline_days => Int <$> Updates.return_deadline_days updates
  | Col.accepts_exchanges => flag <$> Updates.accepts_exchanges updates
  | Col.store_country => Text <$> Updates.store_country updates
  | Col.target_countries => Text <$> Updates.target_countries updates
  | Col.feed_generated_at | Col.product_count
  | Col.created_at | Col.updated_at => None
  end.

(** The value the last assignment to [c] in a SET list binds, if any. *)
Definition last_binding (c : Col.t) (sets : list (Col.t * sqlval))
    : option sqlval :=
  fold_left (fun acc cv => if decide (fst cv = c) then Some (snd cv) else acc)
            sets None.


(** ** Sample data *)

Definition sample_variant : Variant.t :=
  {| Variant.id := lit "gid://shopify/ProductVariant/42";
     Variant.title := lit "Default Title";
     Variant.sku := None;
     Variant.price := lit "8.00";
     Variant.compareAtPrice := Some (lit "10.00");
     Variant.availableForSale := false;
     Variant.inventoryQuantity := Some 0;
     Variant.inventoryPolicy := lit "DENY";
     Variant.weight := Some (Finite 15 (-1));
     Variant.weightUnit := lit "KILOGRAMS";
     Variant.selectedOptions :=
       [SelectedOption.mk (lit "Title") (lit "Default Title")];
     Variant.image := None |}.


Definition sample_plain_variant : Variant.t :=
  {| Variant.id := lit "gid://shopify/ProductVariant/43";
     Variant.title := lit "Default Title";
     Variant.sku := None;
     Variant.price := lit "10.00";
     Variant.compareAtPrice := None;
     Variant.availableForSale := true;
     Variant.inventoryQuantity := None;
     Variant.inventoryPolicy := lit "DENY";
     Variant.weight := None;
     Variant.weightUnit := lit "KILOGRAMS";
     Variant.selectedOptions :=
       [SelectedOption.mk (lit "Title") (lit "Default Title")];
     Variant.image := None |}.

Definition sample_product : Product.t :=
  {| Product.id := lit "gid://shopify/Product/7";
     Product.title := lit "Mug";
     Product.descriptionHtml := lit "<p>A&nbsp;mug</p>";
     Product.description := [];
     Product.handle := lit "mug";
     Product.vendor := [];
     Product.productType := [];
     Product.status := lit "ACTIVE";
     Product.onlineStoreUrl := None;
     Product.images := [lit "https://x/m.jpg"];
     Product.variants := [sample_variant] |}.

Definition sample_shop : ShopInfo.t :=
  {| ShopInfo.name := lit "Mugs";
     ShopInfo.url := lit "https://mugs.example/";
     ShopInfo.primaryDomain := None;
     ShopInfo.currencyCode := lit "USD";
     ShopInfo.billingAddress := None |}.

Definition sample_settings : FeedSettings.t :=
  default_settings (lit "mugs.myshopify.com").

Definition sample_draft : Product.t :=
  {| Product.id := lit "gid://shopify/Product/8";
     Product.title := lit "Cup";
     Product.descriptionHtml := [];
     Product.description := lit "A cup";
     Product.handle := lit "cup";
     Product.vendor := [];
     Product.productType := [];
     Product.status := lit "DRAFT";
     Product.onlineStoreUrl := None;
     Product.images := [lit "https://x/c.jpg"];
     Product.variants := [sample_variant] |}.

(** ** Sample worlds and stores *)

Definition empty_db : D1Database :=
  {| feed_settings := ∅; feed_cache := ∅; journal := [] |}.

Definition sample_shop_key : str := lit "mugs.myshopify.com".

(** Nothing fails; the catalog is empty. *)
Definition quiet_world : World :=
  {| fault := fun _ => false;
     unixepoch := 1700000000;
     Date_now := 1700000000123;
     fetchShopInfo := Ok sample_shop;
     fetchAllProducts := Ok [] |}.



Definition sample_updates : Updates.t :=
  {| Updates.shop := None;
     Updates.enable_search := Some false;
     Updates.enable_checkout := None;
     Updates.seller_name := Some (Some (lit "Mugs & Co"));
     Updates.seller_url := None;
     Updates.privacy_policy_url := None;
     Updates.terms_of_service_url := None;
     Updates.return_policy_url := Some None;
     Updates.accepts_returns := None;
     Updates.return_deadline_days := None;
     Updates.accepts_exchanges := None;
     Updates.store_country := None;
     Updates.target_countries := None |}.

Definition no_updates : Updates.t :=
  {| Updates.shop := Some sample_shop_key;
     Updates.enable_search := None;
     Updates.enable_checkout := None;
     Updates.seller_name := None;
     Updates.seller_url := None;
     Updates.privacy_policy_url := None;
     Updates.terms_of_service_url := None;
     Updates.return_policy_url := None;
     Updates.accepts_returns := None;
     Updates.return_deadline_days := None;
     Updates.accepts_exchanges := None;
     Updates.store_country := None;
     Updates.target_countries := None |}.

(** * The rest of the service, the catalog fetcher and the routes *)

(** ** Teardown: [deleteFeedData]

    [Promise.all] starts the two DELETE statements together, so both are
    issued; each one fails as a whole or takes effect, and the call rejects
    when either fails.  Which of the two fail is given by the two flags; the
    journal, on whose positions [World] places its faults, is left as it is. *)
Definition deleteFeedData (settings_fails cache_fails : bool) (shop : str)
    : IO unit := fun db =>
  (if (settings_fails || cache_fails)%bool then Throw (lit "D1_ERROR")
   else Ok tt,
   {| feed_settings :=
        if settings_fails then feed_settings db
        else delete shop (feed_settings db);
      feed_cache :=
        if cache_fails then feed_cache db else delete shop (feed_cache db);
      journal := journal db |}).

(** ** Settings from the shop: [autoPopulateSettings] *)

(** The [url] of each policy, when the policy is there. *)
Module ShopPolicies.
Record t := mk {
  privacyPolicy : option str;
  termsOfService : option str;
  refundPolicy : option str
}.
End ShopPolicies.

(** [fetchShopPolicies]: the policies are no longer asked for; the promise
    resolves to three nulls. *)
Definition fetchShopPolicies : result ShopPolicies.t :=
  Ok {| ShopPolicies.privacyPolicy := None;
        ShopPolicies.termsOfService := None;
        ShopPolicies.refundPolicy := None |}.

(** [await Promise.all([a, b])] on two fetches that touch no table. *)
Definition both {A B} (a : result A) (b : result B) : IO (A * B) :=
  fun db =>
    match a, b with
    | Ok x, Ok y => (Ok (x, y), db)
    | Throw e, _ => (Throw e, db)
    | Ok _, Throw e => (Throw e, db)
    end.

(** [if (url) updates.field = url] *)
Definition set_if_truthy (url : option str) : option (option str) :=
  match url with
  | Some u => if truthy u then Some (Some u) else None
  | None => None
  end.

(** The updates [autoPopulateSettings] builds from the answers of the shop
    and policy queries; [shipsToCountries] is the field of that name of the
    shop answer, which the mapper does not read. *)
Definition populated_updates (shop : str) (shopInfo : ShopInfo.t)
    (shipsToCountries : option (list str)) (policies : ShopPolicies.t)
    : Updates.t :=
  let shopUrl :=
    or_opt (ShopInfo.primaryDomain shopInfo)
      (or_str (ShopInfo.url shopInfo) (lit "https://" ++ shop)) in
  {| Updates.shop := None;
     Updates.enable_search := None;
     Updates.enable_checkout := None;
     Updates.seller_name := Some (Some (ShopInfo.name shopInfo));
     Updates.seller_url := Some (Some (replace_first trailing_slash [] shopUrl));
     Updates.privacy_policy_url :=
       set_if_truthy (ShopPolicies.privacyPolicy policies);
     Updates.terms_of_service_url :=
       set_if_truthy (ShopPolicies.termsOfService policies);
     Updates.return_policy_url :=
       set_if_truthy (ShopPolicies.refundPolicy policies);
     Updates.accepts_returns := None;
     Updates.return_deadline_days := None;
     Updates.accepts_exchanges := None;
     Updates.store_country :=
       Some (or_opt (ShopInfo.billingAddress shopInfo) (lit "US"));
     Updates.target_countries :=
       Some (match shipsToCountries with
             | Some countries => or_str (join (lit ",") countries) (lit "US")
             | None => lit "US"
             end) |}.

Definition autoPopulateSettings (w : World)
    (shipsToCountries : option (list str)) (shop : str) : IO FeedSettings.t :=
  answers <- both (fetchShopInfo w) fetchShopPolicies ;;
  let updates :=
    populated_updates shop (fst answers) shipsToCountries (snd answers) in
  _ <- updateFeedSettings w shop updates ;;
  getFeedSettings w shop.

(** ** Catalog fetcher: [fetchAllProducts] *)

Module Shopify.

(** One page of the products query: the [node]s of its [edges] and its
    [pageInfo]. *)
Record Page := {
  edges : list Product.t;
  hasNextPage : bool;
  endCursor : option str
}.

(** What [admin.graphql(PRODUCTS_QUERY, { variables: { cursor } })] and
    [response.json()] give for a cursor: a rejection, a body without
    [data.products], or a page. *)
Abbreviation Admin := (option str -> result (option Page)).

(** The [while (hasNextPage)] loop, entered with [cursor] and the products
    gathered so far; [None] when [fuel] requests were not enough. *)
Fixpoint pages (fuel : nat) (admin : Admin) (cursor : option str)
    (allProducts : list Product.t) : option (result (list Product.t)) :=
  match fuel with
  | O => None
  | S fuel' =>
      match admin cursor with
      | Throw e => Some (Throw e)
      | Ok None => Some (Ok allProducts)
      | Ok (Some page) =>
          let allProducts := allProducts ++ edges page in
          if hasNextPage page
          then pages fuel' admin (endCursor page) allProducts
          else Some (Ok allProducts)
      end
  end.

Definition fetchAllProducts (fuel : nat) (admin : Admin)
    : option (result (list Product.t)) :=
  pages fuel admin None [].

(** How the loop ends: at a page without a next page, at a body without
    [data.products], or at a request that is rejected. *)
Inductive ending :=
| Complete
| Truncated
| Rejected (e : str).

(** The pages the loop gathers from a cursor on, and how it ends. *)
Inductive visits (admin : Admin) : option str -> list Page -> ending -> Prop :=
| visits_last cursor page :
    admin cursor = Ok (Some page) -> hasNextPage page = false ->
    visits admin cursor [page] Complete
| visits_missing cursor :
    admin cursor = Ok None -> visits admin cursor [] Truncated
| visits_rejected cursor e :
    admin cursor = Throw e -> visits admin cursor [] (Rejected e)
| visits_next cursor page rest how :
    admin cursor = Ok (Some page) -> hasNextPage page = true ->
    visits admin (endCursor page) rest how ->
    visits admin cursor (page :: rest) how.

(** The number of requests of a run of the loop. *)
Definition requests (gathered : list Page) (how : ending) : nat :=
  match how with
  | Complete => length gathered
  | Truncated | Rejected _ => S (length gathered)
  end.

(** What the loop returns for the pages it gathered. *)
Definition outcome (gathered : list Page) (how : ending)
    : result (list Product.t) :=
  match how with
  | Rejected e => Throw e
  | Complete | Truncated => Ok (flat_map edges gathered)
  end.

(** A catalog of two pages whose second request has no products in its
    body. *)
Definition broken_admin : Admin := fun cursor =>
  match cursor with
  | None =>
      Ok (Some {| edges := [sample_product]; hasNextPage := true;
                  endCursor := Some (lit "c1") |})
  | Some _ => Ok None
  end.

End Shopify.

(** ** The public feed route: [/feed/:shop/products.jsonl] *)

Module Feed.

(** The body of a response: a text, or the gzip stream of a text. *)
Inductive body :=
| Text (s : str)
| Gzip (s : str).

(** The value of a header: a text, or [new Date(ms).toUTCString()]. *)
Inductive header_value :=
| Plain (s : str)
| UTCString (ms : Z).

Record Response := {
  status : Z;
  content : body;
  headers : list (str * header_value)
}.

(** [s.includes(p)] *)
Fixpoint includes (p s : str) : bool :=
  (starts_with p s
   || match s with
      | [] => false
      | _ :: s' => includes p s'
      end)%bool.

(** [String(row.product_count)] *)
Definition count_text (n : option Z) : str :=
  match n with
  | Some z => int_to_string z
  | None => lit "null"
  end.

(** [`${shopSlug}.myshopify.com`] *)
Definition shop_of_slug (shopSlug : str) : str :=
  shopSlug ++ lit ".myshopify.com".

Definition not_found : Response :=
  {| status := 404;
     content := Text (lit "Feed not found. Generate the feed first.");
     headers := [(lit "Content-Type", Plain (lit "text/plain"))] |}.

(** The loader: [shopSlug] is [params.shop], [acceptEncoding] the request
    header of that name. *)
Definition loader (w : World) (shopSlug : option str)
    (acceptEncoding : option str) : D1Database -> Response * D1Database :=
  fun db =>
    if negb (truthy_opt shopSlug)
    then ({| status := 404; content := Text (lit "Not Found"); headers := [] |},
          db)
    else
      let shop := shop_of_slug (default [] shopSlug) in
      match first_cache w shop db with
      | (Throw _, db') =>
          ({| status := 500; content := Text (lit "Internal Server Error");
              headers := [] |}, db')
      | (Ok None, db') => (not_found, db')
      | (Ok (Some row), db') =>
          if negb (truthy_opt (CacheRow.feed_data row)) then (not_found, db')
          else
            let feedData := default [] (CacheRow.feed_data row) in
            let generatedAt := UTCString (CacheRow.generated_at row) in
            let supportsGzip :=
              includes (lit "gzip") (or_opt acceptEncoding []) in
            if supportsGzip
            then
              ({| status := 200;
                  content := Gzip feedData;
                  headers :=
                    [(lit "Content-Type", Plain (lit "application/jsonl"));
                     (lit "Content-Encoding", Plain (lit "gzip"));
                     (lit "Content-Disposition",
                      Plain (lit "inline; filename=products.jsonl.gz"));
                     (lit "Last-Modified", generatedAt);
                     (lit "Cache-Control", Plain (lit "public, max-age=3600"));
                     (lit "Access-Control-Allow-Origin", Plain (lit "*"));
                     (lit "X-Product-Count",
                      Plain (count_text (CacheRow.product_count row)))] |},
               db')
            else
              ({| status := 200;
                  content := Text feedData;
                  headers :=
                    [(lit "Content-Type", Plain (lit "application/jsonl"));
                     (lit "Content-Disposition",
                      Plain (lit "inline; filename=products.jsonl"));
                     (lit "Last-Modified", generatedAt);
                     (lit "Cache-Control", Plain (lit "public, max-age=3600"));
                     (lit "Access-Control-Allow-Origin", Plain (lit "*"));
                     (lit "X-Product-Count",
                      Plain (count_text (CacheRow.product_count row)))] |},
               db')
      end.

End Feed.

(** ** The dashboard route: the loader of [app._index.tsx] *)

Module Dashboard.

Record t := {
  shop : str;
  settings : FeedSettings.t;
  feedUrl : str;
  feedStatus : option (option Z * Z)
}.

(** [session.shop.replace] of ".myshopify.com" by the empty text: a text
    pattern, so the first occurrence only. *)
Definition shop_slug (shop : str) : str :=
  replace_first (literal (lit ".myshopify.com")) [] shop.

(** The loader, for the shop of the authenticated session; [appUrl] is the
    variable [SHOPIFY_APP_URL] of the environment. *)
Definition loader (w : World) (shipsToCountries : option (list str))
    (appUrl : option str) (shop : str) : IO t :=
  settings <- getFeedSettings w shop ;;
  settings <-
    (if negb (truthy_opt (FeedSettings.seller_name settings))
     then autoPopulateSettings w shipsToCountries shop
     else ret settings) ;;
  cachedFeed <- getCachedFeed w shop ;;
  let appUrl := or_opt appUrl [] in
  let shopSlug := shop_slug shop in
  ret {| shop := shop;
         settings := settings;
         feedUrl := appUrl ++ lit "/feed/" ++ shopSlug ++ lit "/products.jsonl";
         feedStatus :=
           (fun cached =>
              (Cached.productCount cached, Cached.generatedAt cached))
           <$> cachedFeed |}.

End Dashboard.

(** ** More sample data *)

(** An active product without a plain description, with an HTML description
    of white space only. *)
Definition sample_blank_product : Product.t :=
  {| Product.id := lit "gid://shopify/Product/9";
     Product.title := lit "Cup";
     Product.descriptionHtml := lit "  ";
     Product.description := [];
     Product.handle := lit "cup";
     Product.vendor := [];
     Product.productType := [];
     Product.status := lit "ACTIVE";
     Product.onlineStoreUrl := None;
     Product.images := [lit "https://x/c.jpg"];
     Product.variants := [sample_variant] |}.



(** ** Reading the settings back after a partial update *)

(** The settings read after an update, from the settings read before it: a
    field that is present takes the place of the old one, after the coercion
    of the read ([0] days read as 30, an empty country as "US"). *)
Definition read_back (updates : Updates.t) (old : FeedSettings.t)
    : FeedSettings.t :=
  {| FeedSettings.shop := FeedSettings.shop old;
     FeedSettings.enable_search :=
       default (FeedSettings.enable_search old) (Updates.enable_search updates);
     FeedSettings.enable_checkout :=
       default (FeedSettings.enable_checkout old)
               (Updates.enable_checkout updates);
     FeedSettings.seller_name :=
       default (FeedSettings.seller_name old) (Updates.seller_name updates);
     FeedSettings.seller_url :=
       default (FeedSettings.seller_url old) (Updates.seller_url updates);
     FeedSettings.privacy_policy_url :=
       default (FeedSettings.privacy_policy_url old)
               (Updates.privacy_policy_url updates);
     FeedSettings.terms_of_service_url :=
       default (FeedSettings.terms_of_service_url old)
               (Updates.terms_of_service_url updates);
     FeedSettings.return_policy_url :=
       default (FeedSettings.return_policy_url old)
               (Updates.return_policy_url updates);
     FeedSettings.accepts_returns :=
       default (FeedSettings.accepts_returns old)
               (Updates.accepts_returns updates);
     FeedSettings.return_deadline_days :=
       match Updates.return_deadline_days updates with
       | Some days => if days =? 0 then 30 else days
       | None => FeedSettings.return_deadline_days old
       end;
     FeedSettings.accepts_exchanges :=
       default (FeedSettings.accepts_exchanges old)
               (Updates.accepts_exchanges updates);
     FeedSettings.store_country :=
       match Updates.store_country updates with
       | Some country => or_str country (lit "US")
       | None => FeedSettings.store_country old
       end;
     FeedSettings.target_countries :=
       match Updates.target_countries updates with
       | Some countries => or_str countries (lit "US")
       | None => FeedSettings.target_countries old
       end |}.

(** ** More sample worlds *)

(** Nothing fails; the catalog holds the sample product. *)
Definition stocked_world : World :=
  {| fault := fun _ => false;
     unixepoch := 1700000000;
     Date_now := 1700000000123;
     fetchShopInfo := Ok sample_shop;
     fetchAllProducts := Ok [sample_product] |}.

(** A store where the sample shop has a seller name and no feed. *)
Definition configured_db : D1Database :=
  {| feed_settings :=
       {[ sample_shop_key :=
            <[Col.seller_name := Text (lit "Mugs")]> (inserted_row quiet_world) ]};
     feed_cache := ∅;
     journal := [] |}.

(** * Properties *)

(** ** Sample runs *)

Example parseFloat_sample :
  parseFloat (lit " 10.50abc") = Finite 1050 (-2)
  /\ parseFloat (lit "-.5e1") = Finite (-5) 0
  /\ parseFloat (lit "abc") = NaN
  /\ parseFloat [] = NaN
  /\ num_gt (parseFloat (lit "10.00")) (parseFloat (lit "8.00")) = true
  /\ num_gt (parseFloat (lit "8")) (parseFloat (lit "8.00")) = false.
Proof. vm_compute. repeat split. Qed.

Example number_to_string_sample :
  number_to_string (Finite 1500 (-3)) = lit "1.5"
  /\ number_to_string (Finite (-25) (-3)) = lit "-0.025"
  /\ number_to_string (Finite 2 0) = lit "2"
  /\ int_to_string (-30) = lit "-30".
Proof. vm_compute. repeat split. Qed.

Example stripHtml_sample :
  stripHtml (lit "<p>Hello</p><p>World &amp; &lt;you&gt;</p>  ")
  = lit "Hello World & <you>"
  /\ stripHtml (lit "a < b") = lit "a < b"
  /\ stripHtml (lit "a<b>c") = lit "a c"
  /\ stripHtml (lit "&amp;lt;") = lit "<"
  /\ stripHtml (lit "&copy;") = lit "&copy;"
  /\ replace_first trailing_slash [] (lit "https://x.y//") = lit "https://x.y/".
Proof. vm_compute. repeat split. Qed.

(** ** Strings *)

Lemma str_eqb_true (a b : str) : str_eqb a b = true <-> a = b.
Proof. unfold str_eqb. apply bool_decide_eq_true. Qed.

Lemma str_eqb_false (a b : str) : str_eqb a b = false <-> a <> b.
Proof. unfold str_eqb. apply bool_decide_eq_false. Qed.

Lemma truthy_false (s : str) : truthy s = false <-> s = [].
Proof. destruct s; simpl; split; congruence. Qed.

Lemma truthy_true (s : str) : truthy s = true <-> s <> [].
Proof. destruct s; simpl; split; congruence. Qed.

Lemma or_opt_truthy (s : str) (d : str) : s <> [] -> or_opt (Some s) d = s.
Proof. intros H. simpl. unfold or_str. destruct s; [congruence | reflexivity]. Qed.

Lemma split_nonempty (sep : N) (s : str) : split sep s <> [].
Proof.
  destruct s as [| c s]; simpl; [discriminate |].
  destruct (N.eqb c sep); [discriminate |].
  destruct (split sep s); discriminate.
Qed.

(** A text without the separator is a single part. *)
Lemma split_no_sep (sep : N) (s : str) :
  Forall (fun c => c <> sep) s -> split sep s = [s].
Proof.
  induction 1 as [| c s Hc _ IH]; simpl; [reflexivity |].
  destruct (N.eqb_spec c sep); [contradiction |]. now rewrite IH.
Qed.

Lemma last_app_nonempty {A} (l1 l2 : list A) (d : A) :
  l2 <> [] -> List.last (l1 ++ l2) d = List.last l2 d.
Proof.
  intros Hne. induction l1 as [| x l1 IH]; [reflexivity |].
  cbn [app]. destruct (l1 ++ l2) eqn:E; [| exact IH].
  apply app_eq_nil in E as [_ E]. congruence.
Qed.

Lemma last_cons_nonempty {A} (x : A) (l : list A) (d : A) :
  l <> [] -> List.last (x :: l) d = List.last l d.
Proof. destruct l; [congruence | reflexivity]. Qed.

(** The identifier of a global id is what follows its last slash. *)
Lemma extractShopifyId_segment (prefix segment : str) :
  Forall (fun c => c <> 47%N) segment ->
  extractShopifyId (prefix ++ 47%N :: segment) = segment.
Proof.
  intros Hseg. unfold extractShopifyId.
  induction prefix as [| c prefix IH]; simpl.
  - rewrite (split_no_sep _ _ Hseg). reflexivity.
  - destruct (N.eqb c 47).
    + rewrite last_cons_nonempty by apply split_nonempty. exact IH.
    + destruct (split 47 (prefix ++ 47%N :: segment)) as [| q qs] eqn:E.
      * now apply split_nonempty in E.
      * destruct qs; [| exact IH].
        exfalso. clear IH. revert q E.
        induction prefix as [| d prefix IH']; simpl; intros q E.
        -- rewrite (split_no_sep _ _ Hseg) in E. discriminate.
        -- destruct (N.eqb d 47).
           ++ injection E as _ E. now apply split_nonempty in E.
           ++ destruct (split 47 (prefix ++ 47%N :: segment)) as [| r rs] eqn:E';
                [now apply split_nonempty in E' |].
              injection E as _ E. subst rs. now apply (IH' r).
Qed.

(** ** Availability *)

(** C4: the availability of a variant follows the priority order: inventory
    policy CONTINUE gives in_stock; else a true sellable flag gives in_stock;
    else a known quantity of at most zero gives out_of_stock; else the
    result mirrors the sellable flag.  The value preorder is never returned. *)
Theorem getAvailability_priority (variant : Variant.t) :
  (Variant.inventoryPolicy variant = lit "CONTINUE" ->
   getAvailability variant = in_stock)
  /\ (Variant.inventoryPolicy variant <> lit "CONTINUE" ->
      Variant.availableForSale variant = true ->
      getAvailability variant = in_stock)
  /\ (forall q,
      Variant.inventoryPolicy variant <> lit "CONTINUE" ->
      Variant.availableForSale variant = false ->
      Variant.inventoryQuantity variant = Some q -> q <= 0 ->
      getAvailability variant = out_of_stock)
  /\ (Variant.inventoryPolicy variant <> lit "CONTINUE" ->
      Variant.availableForSale variant = false ->
      (forall q, Variant.inventoryQuantity variant = Some q -> 0 < q) ->
      getAvailability variant =
        if Variant.availableForSale variant then in_stock else out_of_stock)
  /\ getAvailability variant <> preorder.
Proof.
  unfold getAvailability.
  destruct (str_eqb (Variant.inventoryPolicy variant) (lit "CONTINUE")) eqn:Hp.
  - apply str_eqb_true in Hp. repeat split; intros; congruence.
  - apply str_eqb_false in Hp.
    destruct (Variant.availableForSale variant) eqn:Hs.
    + repeat split; intros; congruence.
    + destruct (Variant.inventoryQuantity variant) as [q |] eqn:Hq.
      * destruct (Z.leb_spec q 0); repeat split; intros; try congruence;
          repeat match goal with
          | H : forall _, Some _ = Some _ -> _ |- _ => specialize (H _ eq_refl)
          | H : Some _ = Some _ |- _ => injection H as ->
          end; lia.
      * repeat split; intros; congruence.
Qed.

Lemma getAvailability_priority_witness :
  getAvailability sample_variant = out_of_stock.
Proof.
  apply (proj1 (proj2 (proj2 (getAvailability_priority sample_variant))) 0).
  - vm_compute. discriminate.
  - reflexivity.
  - reflexivity.
  - lia.
Defined.

(** ** Record mapper *)

Ltac open_mapper H :=
  unfold mapVariantToFeedItem in H;
  destruct (str_eqb (Product.status _) (lit "ACTIVE")) eqn:?Hstatus;
  cbn [negb] in H; [| discriminate H];
  destruct (truthy (mainImage _ _)) eqn:?Himage;
  cbn [negb] in H; [| discriminate H];
  injection H as <-.

Example mapVariantToFeedItem_sample :
  (fun item => (Item.title item, Item.price item, Item.sale_price item,
                Item.availability item, Item.variant_dict item,
                Item.item_id item, Item.description item, Item.url item,
                Item.weight item))
  <$> mapVariantToFeedItem sample_product sample_variant sample_shop
        sample_settings
  = Some (lit "Mug", lit "10.00 USD", Some (lit "8.00 USD"), out_of_stock,
          None, lit "7-42", lit "A mug", lit "https://mugs.example/products/mug",
          Some (lit "1.5")).
Proof. vm_compute. reflexivity. Qed.

Example draft_product_sample :
  mapProductsToFeed [sample_draft; sample_product] sample_shop sample_settings
  = omap (fun v => mapVariantToFeedItem sample_product v sample_shop
                     sample_settings) [sample_variant]
  /\ mapProductsToFeed [sample_draft] sample_shop sample_settings = [].
Proof. vm_compute. split; reflexivity. Qed.

Example plain_variant_sample :
  (fun item => (Item.title item, Item.price item, Item.sale_price item,
                Item.availability item, Item.variant_dict item))
  <$> mapVariantToFeedItem sample_product sample_plain_variant sample_shop
        sample_settings
  = Some (lit "Mug", lit "10.00 USD", None, in_stock, None).
Proof. vm_compute. reflexivity. Qed.

(** C10: in every emitted record item_id and offer_id are equal: both are the
    variant SKU when it is present and not empty, and otherwise both are the
    product identifier, a dash, and the variant identifier, each reduced to
    the last segment of its global id. *)
Theorem item_id_offer_id (product : Product.t) (variant : Variant.t)
    (shopInfo : ShopInfo.t) (settings : FeedSettings.t) (item : Item.t) :
  mapVariantToFeedItem product variant shopInfo settings = Some item ->
  Item.offer_id item = Some (Item.item_id item)
  /\ (forall sku, Variant.sku variant = Some sku -> sku <> [] ->
      Item.item_id item = sku)
  /\ (Variant.sku variant = None \/ Variant.sku variant = Some [] ->
      Item.item_id item =
        extractShopifyId (Product.id product) ++ lit "-"
        ++ extractShopifyId (Variant.id variant)).
Proof.
  intros H. open_mapper H. cbn [Item.offer_id Item.item_id].
  split; [reflexivity |]. split.
  - intros sku -> Hne. now apply or_opt_truthy.
  - intros [-> | ->]; reflexivity.
Qed.

Lemma item_id_offer_id_witness :
  exists item,
    mapVariantToFeedItem sample_product sample_variant sample_shop
      sample_settings = Some item
    /\ Item.offer_id item = Some (lit "7-42")
    /\ Item.item_id item = lit "7-42".
Proof.
  eexists. split; [reflexivity |].
  pose proof (item_id_offer_id sample_product sample_variant sample_shop
                sample_settings _ eq_refl) as (Hoffer & _ & Hid).
  rewrite Hoffer, (Hid (or_introl eq_refl)). split; reflexivity.
Defined.





(** ** Batch mapper *)

Lemma push_loop {A B} (f : A -> option B) (l : list A) (acc : list B) :
  fold_left (fun acc x => match f x with Some y => acc ++ [y] | None => acc end)
            l acc
  = acc ++ omap f l.
Proof.
  revert acc. induction l as [| x l IH]; intros acc; simpl.
  - now rewrite app_nil_r.
  - rewrite IH. destruct (f x); [| reflexivity].
    now rewrite <- app_assoc.
Qed.

Lemma mapProductsToFeed_flat (products : list Product.t)
    (shopInfo : ShopInfo.t) (settings : FeedSettings.t) :
  mapProductsToFeed products shopInfo settings
  = flat_map (records_of shopInfo settings) products.
Proof.
  unfold mapProductsToFeed.
  enough (forall acc,
    fold_left
      (fun feedItems product =>
         fold_left
           (fun feedItems variant =>
              match mapVariantToFeedItem product variant shopInfo settings with
              | Some item => feedItems ++ [item]
              | None => feedItems
              end)
           (Product.variants product) feedItems)
      products acc
    = acc ++ flat_map (records_of shopInfo settings) products) as H
    by apply (H []).
  induction products as [| p products IH]; intros acc; simpl.
  - now rewrite app_nil_r.
  - rewrite IH.
    rewrite (push_loop
               (fun variant => mapVariantToFeedItem p variant shopInfo settings)).
    now rewrite <- app_assoc.
Qed.

(** C7: the record mapper returns the skip outcome exactly when the product's
    status is not ACTIVE or the resolved main image is empty, which is the
    case when the variant has no image and the product has no images (and,
    image URLs being non-empty texts, only then); the batch mapper emits the
    records of the remaining pairs only, so none for a product that is not
    active and none for a variant without a resolvable image. *)
Theorem skip_conditions (product : Product.t) (variant : Variant.t)
    (shopInfo : ShopInfo.t) (settings : FeedSettings.t)
    (products : list Product.t) :
  (mapVariantToFeedItem product variant shopInfo settings = None
   <-> Product.status product <> lit "ACTIVE" \/ mainImage product variant = [])
  /\ (Variant.image variant = None -> Product.images product = [] ->
      mainImage product variant = [])
  /\ (Variant.image variant <> Some [] ->
      Forall (fun url => url <> []) (Product.images product) ->
      mainImage product variant = [] ->
      Variant.image variant = None /\ Product.images product = [])
  /\ mapProductsToFeed products shopInfo settings
     = flat_map (records_of shopInfo settings) products
  /\ (Product.status product <> lit "ACTIVE" ->
      records_of shopInfo settings product = [])
  /\ (forall item,
      In item (mapProductsToFeed products shopInfo settings) ->
      exists p v,
        In p products /\ In v (Product.variants p)
        /\ mapVariantToFeedItem p v shopInfo settings = Some item
        /\ Product.status p = lit "ACTIVE" /\ mainImage p v <> []).
Proof.
  assert (Hskip : forall p v,
    mapVariantToFeedItem p v shopInfo settings = None
    <-> Product.status p <> lit "ACTIVE" \/ mainImage p v = []).
  { intros p v. unfold mapVariantToFeedItem.
    destruct (str_eqb (Product.status p) (lit "ACTIVE")) eqn:Hs; cbn [negb].
    - apply str_eqb_true in Hs.
      destruct (truthy (mainImage p v)) eqn:Hi; cbn [negb].
      + apply truthy_true in Hi. split; [discriminate |].
        intros [H | H]; contradiction.
      + apply truthy_false in Hi. split; auto.
    - apply str_eqb_false in Hs. split; auto. }
  split; [apply Hskip |]. split.
  { intros Hv Hp. unfold mainImage. now rewrite Hv, Hp. }
  split.
  { unfold mainImage. intros Hv Hp.
    destruct (Variant.image variant) as [[| c u] |]; try congruence.
    - discriminate.
    - destruct Hp as [| [| c u] urls Hu _]; [auto | congruence | discriminate]. }
  split; [apply mapProductsToFeed_flat |]. split.
  { intros Hs. unfold records_of.
    induction (Product.variants product) as [| v vs IH]; [reflexivity |].
    simpl. rewrite (proj2 (Hskip product v) (or_introl Hs)). exact IH. }
  intros item Hin. rewrite mapProductsToFeed_flat in Hin.
  apply in_flat_map in Hin as (p & Hp & Hin).
  unfold records_of in Hin.
  apply list_elem_of_In, list_elem_of_omap in Hin as (v & Hv & Hmap).
  apply list_elem_of_In in Hv.
  exists p, v. repeat split; try assumption.
  - destruct (decide (Product.status p = lit "ACTIVE")) as [| Hn]; [assumption |].
    rewrite (proj2 (Hskip p v) (or_introl Hn)) in Hmap. discriminate.
  - intros Hi. rewrite (proj2 (Hskip p v) (or_intror Hi)) in Hmap. discriminate.
Qed.

Lemma skip_conditions_witness :
  mapVariantToFeedItem
    sample_draft sample_variant sample_shop sample_settings = None.
Proof.
  apply (proj1 (skip_conditions sample_draft sample_variant sample_shop
                  sample_settings [])).
  left. vm_compute. discriminate.
Defined.

(** ** Store *)

Example generateFeed_sample :
  let '(r, db) := generateFeed quiet_world sample_shop_key empty_db in
  r = {| success := true; productCount := 0; error := None |}
  /\ feed_cache db !! sample_shop_key
     = Some (CacheRow.mk (Some []) (Some 0) 1700000000123)
  /\ (feed_settings db !! sample_shop_key) ≫= (.!! Col.feed_generated_at)
     = Some (Int 1700000000123)
  /\ journal db
     = [SelectSettings sample_shop_key; InsertSettings sample_shop_key;
        ReplaceCache sample_shop_key [] 0 1700000000123;
        UpdateSettings [(Col.feed_generated_at, Int 1700000000123);
                        (Col.product_count, Int 0);
                        (Col.updated_at, Int 1700000000123)] sample_shop_key]
  /\ fst (getCachedFeed quiet_world sample_shop_key db) = Ok None.
Proof. vm_compute. repeat split. Qed.

(** What one statement does to the store: it throws and changes no table, or
    it returns and has taken effect. *)
Lemma run_effect (w : World) (st : statement) (db : D1Database)
    (r : result unit) (db' : D1Database) :
  run w st db = (r, db') ->
  journal db' = journal db ++ [st]
  /\ (((exists e, r = Throw e)
       /\ feed_settings db' = feed_settings db
       /\ feed_cache db' = feed_cache db
       /\ (fault w (length (journal db)) = true
           \/ exists shop, st = InsertSettings shop
                           /\ is_Some (feed_settings db !! shop)))
      \/ (r = Ok tt /\ fault w (length (journal db)) = false
          /\ match st with
             | InsertSettings shop =>
                 feed_settings db !! shop = None
                 /\ feed_settings db'
                    = <[shop := inserted_row w]> (feed_settings db)
                 /\ feed_cache db' = feed_cache db
             | UpdateSettings sets shop =>
                 feed_settings db'
                 = alter (assign sets) shop (feed_settings db)
                 /\ feed_cache db' = feed_cache db
             | ReplaceCache shop data n t =>
                 feed_settings db' = feed_settings db
                 /\ feed_cache db'
                    = <[shop := CacheRow.mk (Some data) (Some n) t]>
                        (feed_cache db)
             | SelectSettings _ | SelectCache _ =>
                 feed_settings db' = feed_settings db
                 /\ feed_cache db' = feed_cache db
             end)).
Proof.
  unfold run. intros H.
  destruct (fault w (length (journal db))) eqn:Hf.
  - injection H as <- <-. cbn [journal feed_settings feed_cache].
    split; [reflexivity |]. left. eauto 10.
  - destruct st; cbn [journal feed_settings feed_cache] in H.
    + injection H as <- <-. cbn [journal feed_settings feed_cache]. auto 10.
    + destruct (feed_settings db !! shop) eqn:Hrow;
        injection H as <- <-; cbn [journal feed_settings feed_cache].
      * split; [reflexivity |]. left. repeat split; eauto.
      * auto 10.
    + injection H as <- <-. cbn [journal feed_settings feed_cache]. auto 10.
    + injection H as <- <-. cbn [journal feed_settings feed_cache]. auto 10.
    + injection H as <- <-. cbn [journal feed_settings feed_cache]. auto 10.
Qed.

(** The settings read on a shop that has a row. *)
Lemma getFeedSettings_existing (w : World) (shop : str) (db : D1Database)
    (row : gmap Col.t sqlval) :
  fault w (length (journal db)) = false ->
  feed_settings db !! shop = Some row ->
  getFeedSettings w shop db
  = (Ok (settings_of_row shop row),
     {| feed_settings := feed_settings db; feed_cache := feed_cache db;
        journal := journal db ++ [SelectSettings shop] |}).
Proof.
  intros Hf Hrow. unfold getFeedSettings, first_settings, bind, run, peek, ret.
  rewrite Hf. cbn [feed_settings]. rewrite Hrow. reflexivity.
Qed.

(** The settings read on a shop that has no row. *)
Lemma getFeedSettings_fresh (w : World) (shop : str) (db : D1Database) :
  fault w (length (journal db)) = false ->
  fault w (S (length (journal db))) = false ->
  feed_settings db !! shop = None ->
  getFeedSettings w shop db
  = (Ok (default_settings shop),
     {| feed_settings := <[shop := inserted_row w]> (feed_settings db);
        feed_cache := feed_cache db;
        journal := (journal db ++ [SelectSettings shop])
                   ++ [InsertSettings shop] |}).
Proof.
  intros Hf1 Hf2 Hrow.
  unfold getFeedSettings, first_settings, bind, run, peek, ret.
  rewrite Hf1. cbn [feed_settings feed_cache journal]. rewrite Hrow.
  cbn [feed_settings feed_cache journal].
  rewrite length_app, Nat.add_1_r. cbn [length]. rewrite Hf2, Hrow. reflexivity.
Qed.


(** ** Settings store *)

Lemma last_binding_snoc (c : Col.t) (sets : list (Col.t * sqlval))
    (col : Col.t) (v : sqlval) :
  last_binding c (sets ++ [(col, v)])
  = if decide (col = c) then Some v else last_binding c sets.
Proof. unfold last_binding. now rewrite fold_left_app. Qed.

Lemma assign_lookup (sets : list (Col.t * sqlval)) (row : gmap Col.t sqlval)
    (c : Col.t) :
  assign sets row !! c
  = match last_binding c sets with
    | Some v => Some v
    | None => row !! c
    end.
Proof.
  induction sets as [| [col v] sets IH] using rev_ind; [reflexivity |].
  rewrite last_binding_snoc. unfold assign in *.
  rewrite fold_left_app. cbn [fold_left fst snd].
  destruct (decide (col = c)) as [-> | Hne].
  - apply lookup_insert_eq.
  - rewrite lookup_insert_ne by assumption. exact IH.
Qed.

Lemma push_binding {A} (c col : Col.t) (bound : A -> sqlval) (field : option A)
    (fields : list (Col.t * sqlval)) :
  last_binding c (push col bound field fields)
  = if decide (col = c)
    then match field with
         | Some v => Some (bound v)
         | None => last_binding c fields
         end
    else last_binding c fields.
Proof.
  destruct field as [v |]; simpl.
  - rewrite last_binding_snoc. reflexivity.
  - destruct (decide (col = c)); reflexivity.
Qed.

(** The SET list binds a column to what the update writes there. *)
Lemma update_fields_binding (updates : Updates.t) (c : Col.t) :
  last_binding c (update_fields updates) = written updates c.
Proof.
  unfold update_fields. rewrite !push_binding.
  destruct c; cbn [decide decide_rel Col.eq_dec written];
    repeat match goal with
    | |- context [decide (?a = ?b)] =>
        destruct (decide (a = b)) as [? | ?]; [discriminate |]
    end;
    repeat match goal with
    | |- context [decide (?a = ?a)] =>
        destruct (decide (a = a)) as [? | ?]; [| congruence]
    end;
    try reflexivity;
    match goal with
    | |- match ?f with _ => _ end = _ => destruct f; reflexivity
    end.
Qed.

Lemma update_fields_empty (updates : Updates.t) :
  Nat.eqb (length (update_fields updates)) 0 = true
  <-> forall c, written updates c = None.
Proof.
  split.
  - intros H c. apply Nat.eqb_eq, length_zero_iff_nil in H.
    rewrite <- update_fields_binding, H. reflexivity.
  - intros H.
    pose proof (H Col.enable_search) as H1.
    pose proof (H Col.enable_checkout) as H2.
    pose proof (H Col.seller_name) as H3.
    pose proof (H Col.seller_url) as H4.
    pose proof (H Col.privacy_policy_url) as H5.
    pose proof (H Col.terms_of_service_url) as H6.
    pose proof (H Col.return_policy_url) as H7.
    pose proof (H Col.accepts_returns) as H8.
    pose proof (H Col.return_deadline_days) as H9.
    pose proof (H Col.accepts_exchanges) as H10.
    pose proof (H Col.store_country) as H11.
    pose proof (H Col.target_countries) as H12.
    clear H. destruct updates; simpl in *.
    repeat match goal with
    | H : _ <$> ?f = None |- _ => destruct f; [discriminate H | clear H]
    end.
    reflexivity.
Qed.

(** Reading the inserted row back gives the defaults that were returned. *)
Lemma settings_of_inserted_row (w : World) (shop : str) :
  settings_of_row shop (inserted_row w) = default_settings shop.
Proof. vm_compute. reflexivity. Qed.

(** C9: on a shop without a settings row, one [getFeedSettings] inserts
    exactly one row, which carries the documented defaults (search enabled,
    checkout disabled, returns accepted with a 30-day deadline, exchanges
    accepted, country US), and returns those defaults; a second call right
    after it issues no insert, changes nothing and returns the same value. *)
Theorem get_or_create (w : World) (shop : str) (db : D1Database) :
  (forall n, fault w n = false) ->
  feed_settings db !! shop = None ->
  exists db1 db2,
    getFeedSettings w shop db = (Ok (default_settings shop), db1)
    /\ feed_settings db1 = <[shop := inserted_row w]> (feed_settings db)
    /\ size (feed_settings db1) = S (size (feed_settings db))
    /\ feed_cache db1 = feed_cache db
    /\ journal db1 = journal db ++ [SelectSettings shop; InsertSettings shop]
    /\ (inserted_row w !! Col.enable_search = Some (Int 1)
        /\ inserted_row w !! Col.enable_checkout = Some (Int 0)
        /\ inserted_row w !! Col.accepts_returns = Some (Int 1)
        /\ inserted_row w !! Col.return_deadline_days = Some (Int 30)
        /\ inserted_row w !! Col.accepts_exchanges = Some (Int 1)
        /\ inserted_row w !! Col.store_country = Some (Text (lit "US")))
    /\ (FeedSettings.enable_search (default_settings shop) = true
        /\ FeedSettings.enable_checkout (default_settings shop) = false
        /\ FeedSettings.accepts_returns (default_settings shop) = true
        /\ FeedSettings.return_deadline_days (default_settings shop) = 30
        /\ FeedSettings.accepts_exchanges (default_settings shop) = true
        /\ FeedSettings.store_country (default_settings shop) = lit "US")
    /\ getFeedSettings w shop db1 = (Ok (default_settings shop), db2)
    /\ feed_settings db2 = feed_settings db1
    /\ feed_cache db2 = feed_cache db1
    /\ journal db2 = journal db1 ++ [SelectSettings shop].
Proof.
  intros Hf Hrow. eexists. eexists.
  rewrite (getFeedSettings_fresh w shop db) by auto.
  split; [reflexivity |]. cbn [feed_settings feed_cache journal].
  split; [reflexivity |].
  split; [now apply map_size_insert_None |].
  split; [reflexivity |].
  split; [now rewrite <- app_assoc |].
  split; [vm_compute; repeat split |].
  split; [repeat split |].
  erewrite getFeedSettings_existing;
    [| apply Hf | cbn [feed_settings]; apply lookup_insert_eq].
  rewrite settings_of_inserted_row.
  split; [reflexivity |]. cbn [feed_settings feed_cache journal].
  repeat split.
Qed.

Lemma get_or_create_witness :
  fst (getFeedSettings quiet_world sample_shop_key empty_db)
  = Ok (default_settings sample_shop_key).
Proof.
  destruct (get_or_create quiet_world sample_shop_key empty_db
              (fun _ => eq_refl) eq_refl) as (db1 & db2 & H & _).
  rewrite H. reflexivity.
Defined.



(** ** Feed cache and orchestrator *)

(** The three ways a generation ends: it fails before the cache is written,
    it fails in the stamp after the cache was written, or it succeeds. *)
Lemma generateFeed_cases (w : World) (shop : str) (db : D1Database)
    (r : GenerateResult) (db' : D1Database) :
  generateFeed w shop db = (r, db') ->
  exists rs db1,
    getFeedSettings w shop db = (rs, db1)
    /\ ((success r = false
         /\ feed_settings db' = feed_settings db1
         /\ feed_cache db' = feed_cache db1)
        \/ exists shopInfo settings products,
             fetchShopInfo w = Ok shopInfo
             /\ rs = Ok settings
             /\ fetchAllProducts w = Ok products
             /\ let items := mapProductsToFeed products shopInfo settings in
                feed_cache db' = <[shop := generated_row w items]> (feed_cache db1)
                /\ journal db'
                   = journal db1
                     ++ [ReplaceCache shop (feedItemsToJsonl items)
                           (Z.of_nat (length items)) (Date_now w);
                         UpdateSettings (stamp w items) shop]
                /\ ((success r = false
                     /\ feed_settings db' = feed_settings db1
                     /\ fault w (S (length (journal db1))) = true)
                    \/ (r = {| success := true;
                               productCount := Z.of_nat (length items);
                               error := None |}
                        /\ feed_settings db'
                           = alter (assign (stamp w items)) shop
                               (feed_settings db1)))).
Proof.
  unfold generateFeed, bind, Promise_all, await, ret. intros H.
  destruct (getFeedSettings w shop db) as [rs db1] eqn:Hget.
  exists rs, db1. split; [reflexivity |].
  destruct (fetchShopInfo w) as [shopInfo | e1] eqn:Hinfo.
  2: { injection H as <- <-. left. auto. }
  destruct rs as [settings | e2].
  2: { injection H as <- <-. left. auto. }
  destruct (fetchAllProducts w) as [products | e3] eqn:Hproducts.
  2: { injection H as <- <-. left. auto. }
  cbn [fst snd] in H.
  set (items := mapProductsToFeed products shopInfo settings) in *.
  destruct (run w (ReplaceCache shop (feedItemsToJsonl items)
                     (Z.of_nat (length items)) (Date_now w)) db1)
    as [[[] | e4] db2] eqn:Hreplace;
    apply run_effect in Hreplace
      as (Hj2 & [((e & He) & Hs2 & Hc2 & _) | (Hr2 & Hf2 & Hs2 & Hc2)]);
    try discriminate.
  2: { injection H as <- <-. left. auto. }
  right. exists shopInfo, settings, products.
  do 3 (split; [reflexivity |]). cbv zeta. fold items.
  destruct (run w (UpdateSettings _ shop) db2) as [[[] | e5] db3] eqn:Hstamp;
    apply run_effect in Hstamp
      as (Hj3 & [((e & He) & Hs3 & Hc3 & Hwhy) | (Hr3 & Hf3 & Hs3 & Hc3)]);
    try discriminate; injection H as <- <-;
    (split; [unfold generated_row; congruence |]);
    (split; [rewrite Hj3, Hj2, <- app_assoc; reflexivity |]).
  - right. split; [reflexivity |]. unfold stamp. congruence.
  - left. split; [reflexivity |]. split; [congruence |].
    destruct Hwhy as [Hfault | (s & Hst & _)]; [| discriminate].
    rewrite Hj2, length_app, Nat.add_1_r in Hfault. exact Hfault.
Qed.




(** The payload is empty exactly when there is no record. *)
Lemma feedItemsToJsonl_empty (items : list Item.t) :
  feedItemsToJsonl items = [] <-> items = [].
Proof.
  split; [| now intros ->].
  destruct items as [| item items]; [reflexivity |].
  unfold feedItemsToJsonl. cbn [map join].
  destruct (map stringify_item items); discriminate.
Qed.

(** The cache read on a store. *)
Lemma getCachedFeed_run (w : World) (shop : str) (db : D1Database) :
  fault w (length (journal db)) = false ->
  fst (getCachedFeed w shop db)
  = Ok match feed_cache db !! shop with
       | Some row =>
           match CacheRow.feed_data row with
           | Some data =>
               if truthy data
               then Some (Cached.mk data (CacheRow.product_count row)
                            (CacheRow.generated_at row))
               else None
           | None => None
           end
       | None => None
       end.
Proof.
  intros Hf. unfold getCachedFeed, first_cache, bind, run, peek, ret.
  rewrite Hf. cbn [feed_cache].
  destruct (feed_cache db !! shop) as [row |]; [| reflexivity].
  destruct (CacheRow.feed_data row) as [data |]; [| reflexivity].
  destruct (truthy data); reflexivity.
Qed.

(** C1 as stated does not hold: after a generation that succeeds with no
    eligible record the cache row exists with the empty payload, and the
    cache read returns the absent result. *)
Lemma empty_feed_reads_absent :
  ~ (forall w shop db r db',
       generateFeed w shop db = (r, db') ->
       success r = true -> productCount r = 0 ->
       fault w (length (journal db')) = false ->
       exists cached,
         fst (getCachedFeed w shop db') = Ok (Some cached)
         /\ Cached.feedData cached = []).
Proof.
  intros H.
  destruct (H quiet_world sample_shop_key empty_db _ _
              (surjective_pairing _) eq_refl eq_refl eq_refl)
    as (cached & Hread & _).
  vm_compute in Hread. discriminate Hread.
Qed.

(** C1, amended: the cache read returns a present result exactly when the
    shop has a cache row whose payload is neither null nor the empty string,
    and the result then carries the payload, count and time of that row; it
    returns the absent result when the shop has no cache row and also when
    the payload of its row is empty.  So after a generation that succeeded,
    the read is present when at least one record was emitted, and absent when
    none was. *)
Theorem getCachedFeed_present (w : World) (shop : str) (db : D1Database) :
  fault w (length (journal db)) = false ->
  (forall cached,
     fst (getCachedFeed w shop db) = Ok (Some cached)
     <-> exists row,
           feed_cache db !! shop = Some row
           /\ CacheRow.feed_data row = Some (Cached.feedData cached)
           /\ Cached.feedData cached <> []
           /\ Cached.productCount cached = CacheRow.product_count row
           /\ Cached.generatedAt cached = CacheRow.generated_at row)
  /\ (fst (getCachedFeed w shop db) = Ok None
      <-> feed_cache db !! shop = None
          \/ exists row,
               feed_cache db !! shop = Some row
               /\ (CacheRow.feed_data row = None
                   \/ CacheRow.feed_data row = Some []))
  /\ (forall w0 db0 r,
        generateFeed w0 shop db0 = (r, db) ->
        success r = true ->
        (productCount r = 0 -> fst (getCachedFeed w shop db) = Ok None)
        /\ (productCount r <> 0 ->
            exists payload,
              payload <> []
              /\ fst (getCachedFeed w shop db)
                 = Ok (Some (Cached.mk payload (Some (productCount r))
                               (Date_now w0))))).
Proof.
  intros Hf. rewrite (getCachedFeed_run w shop db Hf).
  split; [| split].
  - intros [data count time]. cbn [Cached.feedData Cached.productCount
                                     Cached.generatedAt].
    destruct (feed_cache db !! shop) as [row |].
    + destruct row as [[payload |] n t];
        cbn [CacheRow.feed_data CacheRow.product_count CacheRow.generated_at].
      * destruct payload as [| c payload]; cbn [truthy].
        -- split; [discriminate |].
           intros (row & Hrow & Hdata & Hne & _).
           injection Hrow as <-. cbn in Hdata. congruence.
        -- split.
           ++ intros Heq. injection Heq as <- <- <-.
              eexists. split; [reflexivity |]. cbn. repeat split. discriminate.
           ++ intros (row & Hrow & Hdata & _ & Hn & Ht).
              injection Hrow as <-. cbn in *. congruence.
      * split; [discriminate |].
        intros (row & Hrow & Hdata & _). injection Hrow as <-. discriminate.
    + split; [discriminate |]. intros (row & Hrow & _). discriminate.
  - destruct (feed_cache db !! shop) as [row |]; [| split; auto].
    destruct row as [[payload |] n t]; cbn [CacheRow.feed_data].
    + destruct payload as [| c payload]; cbn [truthy].
      * split; [| reflexivity]. intros _. right. eexists. split; [reflexivity |].
        cbn. auto.
      * split; [discriminate |].
        intros [Hnone | (row & Hrow & [Hd | Hd])]; try discriminate;
          injection Hrow as <-; discriminate.
    + split; [| reflexivity]. intros _. right. eexists.
      split; [reflexivity |]. cbn. auto.
  - intros w0 db0 r Hgen Hok.
    apply generateFeed_cases in Hgen
      as (rs & db1 & _ & [(Hfail & _) | (si & st & ps & _ & _ & _ & Hcases)]);
      [congruence |].
    cbv zeta in Hcases.
    destruct Hcases as (Hc & _ & [(Hfail & _) | (Hr & _)]); [congruence |].
    set (items := mapProductsToFeed ps si st) in *.
    rewrite Hc, lookup_insert_eq. unfold generated_row.
    cbn [CacheRow.feed_data CacheRow.product_count CacheRow.generated_at].
    rewrite Hr. cbn [productCount].
    destruct (feedItemsToJsonl items) as [| c payload] eqn:Hjsonl; cbn [truthy].
    + split; [reflexivity |]. intros Hn.
      apply feedItemsToJsonl_empty in Hjsonl. rewrite Hjsonl in Hn.
      now contradiction Hn.
    + split.
      * intros Hz. destruct items; [discriminate Hjsonl | discriminate Hz].
      * intros _. eexists. split; [| reflexivity]. discriminate.
Qed.

Lemma getCachedFeed_present_witness :
  fst (getCachedFeed quiet_world sample_shop_key
         (snd (generateFeed quiet_world sample_shop_key empty_db)))
  = Ok None.
Proof.
  apply (proj2 (proj2 (getCachedFeed_present quiet_world sample_shop_key
                         (snd (generateFeed quiet_world sample_shop_key
                                 empty_db))
                         eq_refl))
           quiet_world empty_db _ (surjective_pairing _) eq_refl).
  reflexivity.
Defined.

(** ** Text normalizer *)

Lemma star_until_close (s : str) :
  star (fun c => negb (N.eqb c 62)) (match_here [One (N.eqb 62)]) s
  = close_len s.
Proof.
  induction s as [| c s IH]; [reflexivity |].
  cbn [star close_len]. rewrite IH.
  destruct (N.eqb_spec c 62) as [-> | Hc]; cbn [negb].
  - reflexivity.
  - cbn [match_here]. rewrite (proj2 (N.eqb_neq 62 c)) by congruence.
    destruct (close_len s); reflexivity.
Qed.

Lemma has_close_len (s : str) :
  Spec.has_close s = match close_len s with Some _ => true | None => false end.
Proof.
  unfold Spec.has_close.
  induction s as [| c s IH]; [reflexivity |].
  cbn [existsb close_len]. rewrite IH, (N.eqb_sym 62 c).
  destruct (N.eqb c 62); [reflexivity |].
  destruct (close_len s); reflexivity.
Qed.

Lemma match_tag (c : N) (s : str) :
  match_here tag_pattern (c :: s)
  = if N.eqb c 60 then S <$> close_len s else None.
Proof.
  unfold tag_pattern. cbn [match_here].
  rewrite star_until_close, (N.eqb_sym 60 c). reflexivity.
Qed.

(** The tag pattern replaces what the walk over the tag spans replaces. *)
Lemma replace_tags_walk (sep : str) (s : str) :
  replace_from tag_pattern sep O s = Spec.cut_tags sep false s
  /\ forall n, close_len s = Some n ->
     replace_from tag_pattern sep n s = Spec.cut_tags sep true s.
Proof.
  induction s as [| c s [IH0 IH1]]; [split; [reflexivity | discriminate] |].
  split.
  - cbn [replace_from Spec.cut_tags]. rewrite match_tag, has_close_len.
    destruct (N.eqb c 60); cbn [andb].
    + destruct (close_len s) as [n |] eqn:Hn; cbn [fmap option_fmap option_map].
      * now rewrite (IH1 n eq_refl).
      * now rewrite IH0.
    + now rewrite IH0.
  - intros n Hn. cbn [close_len] in Hn. cbn [Spec.cut_tags].
    destruct (N.eqb c 62); cbn [negb].
    + injection Hn as <-. cbn [replace_from]. exact IH0.
    + destruct (close_len s) as [k |]; [| discriminate].
      injection Hn as <-. cbn [replace_from]. now apply IH1.
Qed.

Lemma match_literal (p s : str) :
  match_here (literal p) s
  = if starts_with p s then Some (length p) else None.
Proof.
  revert s. induction p as [| a p IH]; intros s; [reflexivity |].
  cbn [literal map match_here starts_with length].
  destruct s as [| b s]; [reflexivity |].
  fold (literal p). rewrite IH, (N.eqb_sym a b).
  destruct (N.eqb b a); [| reflexivity].
  destruct (starts_with p s); reflexivity.
Qed.

(** A literal pattern replaces what the walk over its occurrences replaces. *)
Lemma replace_literal_walk (p rep : str) (n : nat) (s : str) :
  p <> [] ->
  replace_from (literal p) rep n s = Spec.decode_entity p rep n s.
Proof.
  intros Hp. revert n. induction s as [| c s IH]; intros n; [reflexivity |].
  cbn [replace_from Spec.decode_entity].
  destruct n as [| n]; [| apply IH].
  rewrite match_literal.
  destruct (starts_with p (c :: s)).
  - destruct p as [| a p]; [congruence |].
    cbn [length]. rewrite Nat.sub_succ, Nat.sub_0_r. now rewrite IH.
  - now rewrite IH.
Qed.

Lemma star_spaces (s : str) :
  star is_space (match_here []) s = Some (space_run s).
Proof.
  induction s as [| d s IH]; [reflexivity |].
  cbn [star space_run]. rewrite IH.
  destruct (is_space d); reflexivity.
Qed.

Lemma match_spaces (c : N) (s : str) :
  match_here spaces_pattern (c :: s)
  = if is_space c then Some (S (space_run s)) else None.
Proof.
  unfold spaces_pattern. cbn [match_here]. rewrite star_spaces.
  destruct (is_space c); reflexivity.
Qed.

(** The white space pattern replaces what the walk over the runs replaces. *)
Lemma replace_spaces_walk (s : str) :
  replace_from spaces_pattern [32%N] O s = Spec.collapse false s
  /\ replace_from spaces_pattern [32%N] (space_run s) s = Spec.collapse true s.
Proof.
  induction s as [| c s [IH0 IH1]]; [split; reflexivity |].
  cbn [replace_from Spec.collapse space_run]. rewrite match_spaces.
  destruct (is_space c).
  - rewrite IH1. split; reflexivity.
  - rewrite IH0. split; reflexivity.
Qed.

(** [stripHtml] is the normalizer of the specification with a space left in
    the place of each tag span. *)
Lemma stripHtml_walks (html : str) :
  stripHtml html = Spec.stripMarkup_spaced html.
Proof.
  unfold stripHtml, Spec.stripMarkup_spaced, replace_all.
  change (lit " ") with [32%N].
  rewrite (proj1 (replace_spaces_walk _)).
  rewrite !replace_literal_walk by discriminate.
  rewrite (proj1 (replace_tags_walk _ _)).
  reflexivity.
Qed.

Lemma collapse_single_spaced (after_space : bool) (s : str) :
  single_spaced (Spec.collapse after_space s) = true
  /\ (after_space = true -> starts_clean (Spec.collapse after_space s) = true).
Proof.
  revert after_space. induction s as [| c s IH]; intros b; [split; reflexivity |].
  cbn [Spec.collapse].
  destruct (is_space c) eqn:Hc.
  - destruct (IH true) as [Hs Hh]. specialize (Hh eq_refl).
    destruct b; cbn [app]; [split; auto |].
    split; [| discriminate].
    cbn [single_spaced]. rewrite Hs, Hh.
    destruct (is_space 32); reflexivity.
  - destruct (IH false) as [Hs _].
    cbn [single_spaced starts_clean]. rewrite Hc, Hs. split; reflexivity.
Qed.

Lemma drop_spaces_clean (s : str) :
  starts_clean (drop_spaces s) = true
  /\ (single_spaced s = true -> single_spaced (drop_spaces s) = true).
Proof.
  induction s as [| c s [IH1 IH2]]; [split; reflexivity |].
  cbn [drop_spaces]. destruct (is_space c) eqn:Hc.
  - split; [assumption |]. cbn [single_spaced].
    intros H. apply andb_true_iff in H as [_ H]. auto.
  - split; [| auto]. cbn [starts_clean]. now rewrite Hc.
Qed.

Lemma trim_end_starts (s : str) :
  starts_clean s = true -> starts_clean (trim_end s) = true.
Proof.
  destruct s as [| c s]; [reflexivity |]. cbn [starts_clean trim_end].
  intros Hc. destruct (trim_end s); [| exact Hc].
  apply negb_true_iff in Hc. rewrite Hc. cbn [starts_clean]. now rewrite Hc.
Qed.

Lemma trim_end_clean (s : str) :
  single_spaced s = true ->
  single_spaced (trim_end s) = true
  /\ is_space (List.last (trim_end s) 0%N) = false.
Proof.
  induction s as [| c s IH]; [split; reflexivity |].
  cbn [single_spaced]. intros H. apply andb_true_iff in H as [Hc Hs].
  destruct (IH Hs) as [IH1 IH2]. cbn [trim_end].
  destruct (trim_end s) as [| d t] eqn:Ht.
  - destruct (is_space c) eqn:Hsp; [split; reflexivity |].
    cbn [single_spaced List.last]. rewrite Hsp. split; reflexivity.
  - split; [| exact IH2].
    change (single_spaced (c :: d :: t))
      with ((negb (is_space c) || (N.eqb c 32 && starts_clean (d :: t)))
            && single_spaced (d :: t))%bool.
    rewrite IH1, andb_true_r.
    destruct (is_space c) eqn:Hsp; [| reflexivity]. cbn [negb orb] in *.
    apply andb_true_iff in Hc as [Hc Hnext]. rewrite Hc. cbn [andb].
    rewrite <- Ht. now apply trim_end_starts.
Qed.

(** What [stripHtml] returns is normalized. *)
Lemma stripHtml_normalized (html : str) : normalized (stripHtml html) = true.
Proof.
  rewrite stripHtml_walks. unfold Spec.stripMarkup_spaced, trim, normalized.
  set (t := Spec.decode (Spec.cut_tags (lit " ") false html)).
  destruct (collapse_single_spaced false t) as [Hs _].
  destruct (drop_spaces_clean (Spec.collapse false t)) as [Hd1 Hd2].
  specialize (Hd2 Hs).
  destruct (trim_end_clean _ Hd2) as [Ht1 Ht2].
  rewrite (trim_end_starts _ Hd1), Ht1, Ht2. reflexivity.
Qed.

(** C5 as stated does not hold: a tag span is not removed but replaced by a
    space, which separates the words the tag stood between. *)
Lemma stripHtml_keeps_a_space :
  ~ (forall html, stripHtml html = Spec.stripMarkup html).
Proof.
  intros H. specialize (H (lit "a<b>c")). vm_compute in H. discriminate H.
Qed.

(** C5, amended: [stripHtml] puts a single space in the place of every tag
    span, then decodes the six entities nbsp, amp, lt, gt, quot and #39, one
    after the other in this order and no other entity, then turns every run
    of white space into one space and trims; it is a total function, it maps
    the empty string to the empty string, and what it returns has no white
    space at either end and none but single plain spaces inside. *)
Theorem stripHtml_refines (html : str) :
  stripHtml html = Spec.stripMarkup_spaced html
  /\ stripHtml [] = []
  /\ normalized (stripHtml html) = true
  /\ map fst Spec.entities
     = [lit "&nbsp;"; lit "&amp;"; lit "&lt;"; lit "&gt;"; lit "&quot;";
        lit "&#39;"].
Proof.
  split; [apply stripHtml_walks |].
  split; [reflexivity |].
  split; [apply stripHtml_normalized | reflexivity].
Qed.

(** ** Serializer *)

Lemma split_cons_other (sep c : N) (s : str) :
  c <> sep ->
  split sep (c :: s)
  = match split sep s with
    | p :: ps => (c :: p) :: ps
    | [] => [[c]]
    end.
Proof. intros Hc. cbn [split]. now rewrite (proj2 (N.eqb_neq c sep)). Qed.

(** Splitting a line followed by a separator and more text. *)
Lemma split_line (sep : N) (line rest : str) :
  Forall (fun c => c <> sep) line ->
  split sep (line ++ sep :: rest) = line :: split sep rest.
Proof.
  induction 1 as [| c line Hc _ IH]; cbn [app].
  - cbn [split]. now rewrite N.eqb_refl.
  - rewrite split_cons_other by assumption. now rewrite IH.
Qed.

(** Splitting undoes joining, when there is at least one line and no line
    holds the separator. *)
Lemma split_join (sep : N) (lines : list str) :
  lines <> [] ->
  Forall (Forall (fun c => c <> sep)) lines ->
  split sep (join [sep] lines) = lines.
Proof.
  intros Hne Hlines. induction Hlines as [| line lines Hline Hrest IH];
    [congruence |].
  destruct lines as [| line' lines].
  - cbn [join]. now apply split_no_sep.
  - change (join [sep] (line :: line' :: lines))
      with (line ++ sep :: join [sep] (line' :: lines)).
    rewrite split_line by assumption. f_equal. now apply IH.
Qed.

Lemma split_length (sep : N) (s : str) :
  length (split sep s) = S (length (List.filter (N.eqb sep) s)).
Proof.
  induction s as [| c s IH]; [reflexivity |].
  cbn [split List.filter]. rewrite (N.eqb_sym sep c).
  destruct (N.eqb c sep); cbn [length]; [now rewrite IH |].
  destruct (split sep s); cbn [length] in *; lia.
Qed.

Lemma hex_unit_printable (d : N) : printable (hex_unit d).
Proof. unfold printable, hex_unit. destruct (N.ltb d 10); lia. Qed.

Lemma quote_unit_printable (c : N) : Forall printable (quote_unit c).
Proof.
  unfold quote_unit, unicode_escape, printable.
  repeat match goal with
  | |- context [N.eqb c ?k] => destruct (N.eqb_spec c k)
  end; try (repeat constructor; lia).
  destruct (N.ltb_spec c 32); cbn [orb].
  - repeat constructor; try apply hex_unit_printable; lia.
  - destruct (is_lead c || is_trail c)%bool;
      repeat constructor; try apply hex_unit_printable; lia.
Qed.

Lemma is_lead_range (c : N) : is_lead c = true -> (55296 <= c <= 56319)%N.
Proof.
  unfold is_lead. intros H. apply andb_true_iff in H as [H1 H2].
  apply N.leb_le in H1, H2. lia.
Qed.

Lemma is_trail_range (c : N) : is_trail c = true -> (56320 <= c <= 57343)%N.
Proof.
  unfold is_trail. intros H. apply andb_true_iff in H as [H1 H2].
  apply N.leb_le in H1, H2. lia.
Qed.

Lemma quote_units_printable (s : str) : Forall printable (quote_units s).
Proof.
  assert (H : forall n s, (length s <= n)%nat -> Forall printable (quote_units s)).
  { clear s. induction n as [| n IH]; intros [| c s] Hlen;
      try constructor; cbn [length] in Hlen; try lia.
    cbn [quote_units].
    destruct (is_lead c) eqn:Hc.
    - destruct s as [| d s]; [apply quote_unit_printable |].
      destruct (is_trail d) eqn:Hd.
      + apply is_lead_range in Hc. apply is_trail_range in Hd.
        constructor; [unfold printable; lia |].
        constructor; [unfold printable; lia |].
        apply IH. cbn [length] in Hlen. lia.
      + apply Forall_app. split; [apply quote_unit_printable |].
        apply IH. lia.
    - apply Forall_app. split; [apply quote_unit_printable |].
      apply IH. lia. }
  apply (H (length s)). lia.
Qed.

Lemma uint_units_printable (d : Decimal.uint) : Forall printable (uint_units d).
Proof.
  induction d; cbn [uint_units]; constructor; try assumption;
    unfold printable, digit_unit; lia.
Qed.

Lemma int_to_string_printable (z : Z) : Forall printable (int_to_string z).
Proof.
  unfold int_to_string. destruct (Z.to_int z).
  - apply uint_units_printable.
  - constructor; [unfold printable; lia | apply uint_units_printable].
Qed.

Lemma quote_printable (s : str) : Forall printable (quote s).
Proof.
  unfold quote. constructor; [unfold printable; lia |].
  apply Forall_app. split; [apply quote_units_printable |].
  constructor; [unfold printable; lia | constructor].
Qed.

Lemma stringify_value_printable (v : jvalue) :
  Forall printable (stringify_value v).
Proof.
  destruct v as [s | z | [|]]; cbn [stringify_value].
  - apply quote_printable.
  - apply int_to_string_printable.
  - vm_compute. repeat constructor; discriminate.
  - vm_compute. repeat constructor; discriminate.
Qed.

Lemma join_printable (sep : str) (parts : list str) :
  Forall printable sep -> Forall (Forall printable) parts ->
  Forall printable (join sep parts).
Proof.
  intros Hsep. induction 1 as [| p ps Hp Hps IH]; [constructor |].
  destruct ps as [| q ps]; [exact Hp |].
  change (join sep (p :: q :: ps)) with (p ++ sep ++ join sep (q :: ps)).
  apply Forall_app. split; [exact Hp |].
  apply Forall_app. split; [exact Hsep | exact IH].
Qed.

(** The JSON text of an object is a single line. *)
Lemma stringify_object_printable (fields : list (str * jvalue)) :
  Forall printable (stringify_object fields).
Proof.
  unfold stringify_object. constructor; [unfold printable; lia |].
  apply Forall_app. split.
  - apply join_printable.
    + vm_compute. repeat constructor. discriminate.
    + apply Forall_map, Forall_forall. intros [k v] _.
      unfold stringify_member. cbn [fst snd].
      apply Forall_app. split; [apply quote_printable |].
      constructor; [unfold printable; lia | apply stringify_value_printable].
  - constructor; [unfold printable; lia | constructor].
Qed.

Lemma printable_no_newline (s : str) :
  Forall printable s -> Forall (fun c => c <> 10%N) s.
Proof.
  intros H. eapply Forall_impl; [exact H |].
  unfold printable. intros c Hc. lia.
Qed.

(** ** Reading a line back *)

Lemma unhex_hex_unit (d : N) :
  (d < 16)%N -> Json.unhex (hex_unit d) = Some d.
Proof.
  intros H.
  assert (Hd : (d = 0 \/ d = 1 \/ d = 2 \/ d = 3 \/ d = 4 \/ d = 5 \/ d = 6
                \/ d = 7 \/ d = 8 \/ d = 9 \/ d = 10 \/ d = 11 \/ d = 12
                \/ d = 13 \/ d = 14 \/ d = 15)%N) by lia.
  repeat destruct Hd as [-> | Hd]; try reflexivity. subst d. reflexivity.
Qed.

Lemma hex4_escape (c : N) :
  (c < 65536)%N ->
  Json.hex4 (hex_unit (c / 4096 mod 16)) (hex_unit (c / 256 mod 16))
            (hex_unit (c / 16 mod 16)) (hex_unit (c mod 16))
  = Some c.
Proof.
  intros Hc. unfold Json.hex4.
  rewrite !unhex_hex_unit by (apply N.mod_lt; discriminate).
  f_equal.
  assert (H1 : (c / 4096 < 16)%N) by (apply N.Div0.div_lt_upper_bound; lia).
  rewrite (N.mod_small (c / 4096) 16) by exact H1.
  pose proof (N.div_mod c 4096 ltac:(discriminate)) as E1.
  pose proof (N.mod_lt c 4096 ltac:(discriminate)) as B1.
  pose proof (N.div_mod (c / 256) 16 ltac:(discriminate)) as E2.
  pose proof (N.div_mod (c / 16) 16 ltac:(discriminate)) as E3.
  pose proof (N.div_mod c 16 ltac:(discriminate)) as E4.
  rewrite !N.Div0.div_div in E2, E3. change (256 * 16)%N with 4096%N in E2.
  change (16 * 16)%N with 256%N in E3.
  lia.
Qed.

Lemma read_raw (c : N) (rest : str) :
  c <> 34%N -> c <> 92%N -> (32 <= c)%N ->
  Json.read_string (c :: rest) = Json.cons_fst c <$> Json.read_string rest.
Proof.
  intros H1 H2 H3. cbn [Json.read_string].
  rewrite (proj2 (N.eqb_neq c 34)), (proj2 (N.eqb_neq c 92)) by assumption.
  now rewrite (proj2 (N.ltb_ge c 32)).
Qed.

Lemma read_unicode_escape (c : N) (rest : str) :
  (c < 65536)%N ->
  Json.read_string (unicode_escape c ++ rest)
  = Json.cons_fst c <$> Json.read_string rest.
Proof.
  intros Hc. unfold unicode_escape. cbn [app Json.read_string].
  change (N.eqb 92 34) with false. change (N.eqb 92 92) with true.
  change (N.eqb 117 117) with true. cbn iota.
  now rewrite hex4_escape.
Qed.

Lemma read_quote_unit (c : N) (rest : str) :
  Json.read_string (quote_unit c ++ rest)
  = Json.cons_fst c <$> Json.read_string rest.
Proof.
  unfold quote_unit.
  repeat match goal with
  | |- context [N.eqb c ?k] => destruct (N.eqb_spec c k); [subst c; reflexivity |]
  end.
  destruct (N.ltb_spec c 32); cbn [orb].
  - apply read_unicode_escape. lia.
  - destruct (is_lead c) eqn:Hl; cbn [orb].
    + apply is_lead_range in Hl. apply read_unicode_escape. lia.
    + destruct (is_trail c) eqn:Ht.
      * apply is_trail_range in Ht. apply read_unicode_escape. lia.
      * now apply read_raw.
Qed.

(** Reading a quoted text gives the text back. *)
Lemma read_quote_units (s rest : str) :
  Json.read_string (quote_units s ++ 34%N :: rest) = Some (s, rest).
Proof.
  assert (H : forall n s, (length s <= n)%nat ->
            Json.read_string (quote_units s ++ 34%N :: rest) = Some (s, rest)).
  { clear s. induction n as [| n IH]; intros [| c s] Hlen;
      try reflexivity; cbn [length] in Hlen; try lia.
    assert (Hone : Json.read_string
                     (quote_unit c ++ quote_units s ++ 34%N :: rest)
                   = Some (c :: s, rest)).
    { rewrite read_quote_unit, IH by lia. reflexivity. }
    cbn [quote_units].
    destruct (is_lead c) eqn:Hc; [| now rewrite <- app_assoc].
    destruct s as [| d s]; [exact Hone |].
    destruct (is_trail d) eqn:Hd; [| now rewrite <- app_assoc].
    apply is_lead_range in Hc. apply is_trail_range in Hd.
    cbn [app]. rewrite !read_raw by lia.
    rewrite IH by (cbn [length] in Hlen; lia). reflexivity. }
  apply (H (length s)). lia.
Qed.

Lemma read_uint_stop (c : N) (rest : str) :
  is_digit c = false -> Json.read_uint (c :: rest) = (Nil, c :: rest).
Proof.
  intros Hc. cbn [Json.read_uint].
  assert (Hd : (c < 48 \/ 57 < c)%N).
  { unfold is_digit in Hc. apply andb_false_iff in Hc as [Hc | Hc];
      apply N.leb_gt in Hc; lia. }
  repeat match goal with
  | |- context [N.eqb c ?k] => rewrite (proj2 (N.eqb_neq c k)) by lia
  end.
  reflexivity.
Qed.

Lemma read_uint_units (d : Decimal.uint) (c : N) (rest : str) :
  is_digit c = false ->
  Json.read_uint (uint_units d ++ c :: rest) = (d, c :: rest).
Proof.
  intros Hc. induction d; cbn [uint_units app];
    [now apply read_uint_stop | ..];
    cbn [Json.read_uint]; rewrite IHd; reflexivity.
Qed.

(** The decimal numeral of an integer has a digit and no leading zero. *)
Lemma to_uint_well_formed (p : positive) :
  Json.well_formed (Pos.to_uint p) = true.
Proof.
  assert (H : Pos.to_uint p = unorm (Pos.to_uint p)).
  { rewrite <- DecimalPos.Unsigned.to_of, DecimalPos.Unsigned.of_to.
    reflexivity. }
  rewrite H. unfold unorm.
  pose proof (DecimalFacts.nzhead_nonzero (Pos.to_uint p)) as Hnz.
  destruct (nzhead (Pos.to_uint p)) as [| d' | | | | | | | | |];
    try reflexivity.
  now contradiction (Hnz d').
Qed.

Lemma uint_units_head (d : Decimal.uint) :
  Json.well_formed d = true ->
  exists h t, uint_units d = h :: t /\ is_digit h = true.
Proof.
  destruct d; cbn [uint_units]; try discriminate; intros _;
    do 2 eexists; split; reflexivity.
Qed.

Lemma is_digit_not (h k : N) : is_digit h = true -> is_digit k = false -> h <> k.
Proof. intros Hh Hk ->. congruence. Qed.

(** Reading the decimal text of an integer gives the integer back. *)
Lemma read_number_int (z : Z) (c : N) (rest : str) :
  is_digit c = false ->
  Json.read_number (int_to_string z ++ c :: rest) = Some (z, c :: rest).
Proof.
  intros Hc. rewrite <- (DecimalZ.of_to z) at 2. unfold int_to_string.
  assert (Hwf : match Z.to_int z with
                | Decimal.Pos d | Decimal.Neg d => Json.well_formed d = true
                end).
  { destruct z; cbn [Z.to_int]; try apply to_uint_well_formed. reflexivity. }
  destruct (Z.to_int z) as [d | d].
  - destruct (uint_units_head d Hwf) as (h & t & Hd & Hh).
    pose proof (read_uint_units d c rest Hc) as Hread.
    rewrite Hd in *. cbn [app Json.read_number].
    rewrite (proj2 (N.eqb_neq h 45)) by (now apply is_digit_not).
    unfold Json.signed. cbn [app] in Hread. rewrite Hread. cbn [fst snd].
    now rewrite Hwf.
  - cbn [app Json.read_number]. change (N.eqb 45 45) with true. cbn iota.
    unfold Json.signed. rewrite read_uint_units by assumption. cbn [fst snd].
    now rewrite Hwf.
Qed.

Lemma int_to_string_head (z : Z) :
  exists h t, int_to_string z = h :: t /\ (h = 45%N \/ is_digit h = true).
Proof.
  unfold int_to_string.
  assert (Hwf : match Z.to_int z with
                | Decimal.Pos d | Decimal.Neg d => Json.well_formed d = true
                end).
  { destruct z; cbn [Z.to_int]; try apply to_uint_well_formed. reflexivity. }
  destruct (Z.to_int z) as [d | d].
  - destruct (uint_units_head d Hwf) as (h & t & Hd & Hh). eauto.
  - eauto.
Qed.

(** Reading the JSON text of a value gives the value back. *)
Lemma read_stringify_value (v : jvalue) (c : N) (rest : str) :
  is_digit c = false ->
  Json.read_value (stringify_value v ++ c :: rest) = Some (v, c :: rest).
Proof.
  intros Hc. destruct v as [s | z | [|]]; cbn [stringify_value].
  - unfold quote. cbn [app Json.read_value]. change (N.eqb 34 34) with true.
    cbn iota. rewrite <- app_assoc. cbn [app].
    now rewrite read_quote_units.
  - pose proof (read_number_int z c rest Hc) as Hread.
    destruct (int_to_string_head z) as (h & t & Hz & Hh).
    rewrite Hz in *. cbn [app] in *. unfold Json.read_value.
    assert (h <> 34%N /\ h <> 116%N /\ h <> 102%N) as (H1 & H2 & H3).
    { destruct Hh as [-> | Hh]; [repeat split; discriminate |].
      repeat split; apply (is_digit_not _ _ Hh); reflexivity. }
    rewrite (proj2 (N.eqb_neq h 34)) by assumption.
    change (lit "true") with (116%N :: lit "rue").
    change (lit "false") with (102%N :: lit "alse").
    cbn [starts_with].
    rewrite (N.eqb_sym 116 h), (N.eqb_sym 102 h).
    rewrite (proj2 (N.eqb_neq h 116)), (proj2 (N.eqb_neq h 102)) by assumption.
    cbn [andb]. now rewrite Hread.
  - reflexivity.
  - reflexivity.
Qed.

Lemma read_member (k : str) (v : jvalue) (c : N) (rest : str) (fuel : nat) :
  is_digit c = false ->
  Json.read_members (S fuel) (stringify_member (k, v) ++ c :: rest)
  = if N.eqb c 44
    then Json.cons_fst (k, v) <$> Json.read_members fuel rest
    else if N.eqb c 125 then Some ([(k, v)], rest)
    else None.
Proof.
  intros Hc. unfold stringify_member, quote. cbn [fst snd].
  rewrite <- !app_assoc. cbn [app Json.read_members Json.expect].
  change (N.eqb 34 34) with true. cbn [mbind option_bind].
  rewrite <- app_assoc. cbn [app]. rewrite read_quote_units.
  cbn [mbind option_bind snd fst Json.expect].
  change (N.eqb 58 58) with true. cbn [mbind option_bind].
  rewrite read_stringify_value by assumption.
  cbn [mbind option_bind snd fst]. reflexivity.
Qed.

(** Reading the members of an object gives its fields back. *)
Lemma read_members_join (fs : list (str * jvalue)) (f : str * jvalue)
    (fuel : nat) (rest : str) :
  (length fs < fuel)%nat ->
  Json.read_members fuel
    (join (lit ",") (map stringify_member (f :: fs)) ++ 125%N :: rest)
  = Some (f :: fs, rest).
Proof.
  revert f fuel. induction fs as [| g fs IH]; intros [k v] fuel Hfuel;
    (destruct fuel as [| fuel]; [lia |]).
  - cbn [map join]. rewrite read_member by reflexivity. reflexivity.
  - change (join (lit ",") (map stringify_member ((k, v) :: g :: fs)))
      with (stringify_member (k, v)
            ++ 44%N :: join (lit ",") (map stringify_member (g :: fs))).
    rewrite <- app_assoc. cbn [app].
    rewrite read_member by reflexivity. change (N.eqb 44 44) with true.
    cbn iota. rewrite IH by (cbn [length] in Hfuel; lia). reflexivity.
Qed.

Lemma join_members_length (f : str * jvalue) (fs : list (str * jvalue)) :
  (length fs < length (join (lit ",") (map stringify_member (f :: fs))))%nat.
Proof.
  revert f. induction fs as [| g fs IH]; intros [k v].
  - cbn [map join length]. unfold stringify_member, quote. cbn [length app].
    lia.
  - change (join (lit ",") (map stringify_member ((k, v) :: g :: fs)))
      with (stringify_member (k, v)
            ++ 44%N :: join (lit ",") (map stringify_member (g :: fs))).
    rewrite length_app. cbn [length]. specialize (IH g). lia.
Qed.

(** The JSON text of an object parses, and to the fields of the object. *)
Lemma parse_stringify_object (fields : list (str * jvalue)) :
  Json.parse_object (stringify_object fields) = Some fields.
Proof.
  destruct fields as [| f fs]; [reflexivity |].
  unfold stringify_object, Json.parse_object.
  cbn [Json.expect]. change (N.eqb 123 123) with true. cbn [mbind option_bind].
  set (body := join (lit ",") (map stringify_member (f :: fs))).
  assert (Hhead : Json.expect 125 (body ++ [125%N]) = None).
  { subst body. destruct f as [k v]. destruct fs; reflexivity. }
  rewrite Hhead. subst body.
  rewrite read_members_join.
  - reflexivity.
  - rewrite length_app. pose proof (join_members_length f fs). lia.
Qed.

Example empty_payload_sample :
  feedItemsToJsonl [] = []
  /\ split 10 (feedItemsToJsonl []) = [[]]
  /\ Json.parse_object [] = None.
Proof. repeat split. Qed.

(** C6 as stated does not hold for the empty list of records: its payload is
    the empty string, which splits into one line, and that line is not a JSON
    object. *)
Lemma no_records_one_line :
  ~ (forall items,
       length (split 10 (feedItemsToJsonl items)) = length items).
Proof. intros H. specialize (H []). discriminate H. Qed.

(** C6, amended: for a list of N records with N at least one, splitting the
    payload on the newline gives N lines, which are the JSON texts of the
    records in the original order; each line parses on its own as a JSON
    object, with the fields of its record; the payload holds N - 1 newlines,
    one between consecutive records and none after the last.  (For the
    empty list the payload is the empty string, which splits into one empty
    line.) *)
Theorem jsonl_round_trip (items : list Item.t) :
  items <> [] ->
  let lines := split 10 (feedItemsToJsonl items) in
  lines = map stringify_item items
  /\ length lines = length items
  /\ map Json.parse_object lines = map (fun item => Some (item_fields item)) items
  /\ length (List.filter (N.eqb 10) (feedItemsToJsonl items))
     = pred (length items)
  /\ List.last (feedItemsToJsonl items) 0%N = 125%N.
Proof.
  intros Hne lines.
  assert (Hlines : lines = map stringify_item items).
  { subst lines. unfold feedItemsToJsonl. apply split_join.
    - destruct items; [congruence | discriminate].
    - apply Forall_map, Forall_forall. intros item _.
      apply printable_no_newline, stringify_object_printable. }
  split; [exact Hlines |].
  split; [now rewrite Hlines, length_map |].
  split.
  { rewrite Hlines, map_map. apply map_ext. intros item.
    apply parse_stringify_object. }
  split.
  { pose proof (split_length 10 (feedItemsToJsonl items)) as Hlen.
    fold lines in Hlen. rewrite Hlines, length_map in Hlen. lia. }
  unfold feedItemsToJsonl. clear lines Hlines.
  induction items as [| item items IH]; [congruence |].
  destruct items as [| item' items].
  - cbn [map join]. unfold stringify_item, stringify_object.
    change (123%N :: ?l ++ [125%N]) with ((123%N :: l) ++ [125%N]).
    apply last_last.
  - change (join [10%N] (map stringify_item (item :: item' :: items)))
      with (stringify_item item
            ++ 10%N :: join [10%N] (map stringify_item (item' :: items))).
    assert (Hrest : join [10%N] (map stringify_item (item' :: items)) <> []).
    { cbn [map join]. destruct (map stringify_item items); discriminate. }
    rewrite last_app_nonempty by discriminate.
    rewrite last_cons_nonempty by exact Hrest.
    apply IH. discriminate.
Qed.

Lemma jsonl_round_trip_witness :
  map Json.parse_object
      (split 10 (feedItemsToJsonl
                   (mapProductsToFeed [sample_product] sample_shop
                      sample_settings)))
  = map (fun item => Some (item_fields item))
        (mapProductsToFeed [sample_product] sample_shop sample_settings).
Proof.
  apply (jsonl_round_trip
           (mapProductsToFeed [sample_product] sample_shop sample_settings)).
  vm_compute. discriminate.
Defined.

(** * Further properties *)

(** ** Field derivers and record mapper *)

(** X1: an emitted record has no variant_dict exactly when the variant has no
    option at all or a single option whose value is the sentinel
    "Default Title", whatever the name of that option. *)
Theorem variant_dict_omitted (product : Product.t) (variant : Variant.t)
    (shopInfo : ShopInfo.t) (settings : FeedSettings.t) (item : Item.t) :
  mapVariantToFeedItem product variant shopInfo settings = Some item ->
  Item.variant_dict item = None
  <-> Variant.selectedOptions variant = []
      \/ exists name,
           Variant.selectedOptions variant
           = [SelectedOption.mk name DefaultTitle].
Proof.
  intros H. open_mapper H. cbn [Item.variant_dict].
  unfold buildVariantDict.
  destruct (Variant.selectedOptions variant) as [| [name value] [| o opts]];
    cbn [length Nat.eqb orb andb first_is_default SelectedOption.value].
  - split; auto.
  - destruct (str_eqb value DefaultTitle) eqn:Hv;
      cbn [fmap option_fmap option_map].
    + apply str_eqb_true in Hv. subst value. split; eauto.
    + apply str_eqb_false in Hv. split; [discriminate |].
      intros [Hnil | [name' Heq]]; [discriminate | congruence].
  - cbn [fmap option_fmap option_map]. split; [discriminate |].
    intros [Hnil | [name' Heq]]; discriminate.
Qed.

Lemma variant_dict_omitted_witness :
  exists item,
    mapVariantToFeedItem sample_product sample_variant sample_shop
      sample_settings = Some item
    /\ Item.variant_dict item = None.
Proof.
  eexists. split; [reflexivity |].
  apply (variant_dict_omitted sample_product sample_variant sample_shop
           sample_settings _ eq_refl).
  right. eexists. reflexivity.
Defined.

(** X2: the availability of a variant depends on its inventory policy and its
    sellable flag only: it is in_stock exactly when the policy is CONTINUE or
    the flag is set, and the inventory quantity never changes the result. *)
Theorem availability_ignores_quantity (variant other : Variant.t) :
  (getAvailability variant = in_stock
   <-> Variant.inventoryPolicy variant = lit "CONTINUE"
       \/ Variant.availableForSale variant = true)
  /\ (Variant.inventoryPolicy other = Variant.inventoryPolicy variant ->
      Variant.availableForSale other = Variant.availableForSale variant ->
      getAvailability other = getAvailability variant).
Proof.
  assert (Htable : forall v,
    getAvailability v
    = if (str_eqb (Variant.inventoryPolicy v) (lit "CONTINUE")
          || Variant.availableForSale v)%bool
      then in_stock else out_of_stock).
  { intros v. unfold getAvailability.
    destruct (str_eqb (Variant.inventoryPolicy v) (lit "CONTINUE"));
      [reflexivity |].
    destruct (Variant.availableForSale v); [reflexivity |].
    destruct (Variant.inventoryQuantity v) as [q |]; [| reflexivity].
    destruct (q <=? 0); reflexivity. }
  split.
  - rewrite Htable.
    destruct (str_eqb (Variant.inventoryPolicy variant) (lit "CONTINUE")) eqn:Hp.
    + apply str_eqb_true in Hp. cbn [orb]. split; auto.
    + apply str_eqb_false in Hp. cbn [orb].
      destruct (Variant.availableForSale variant).
      * split; auto.
      * split; [discriminate |]. intros [H | H]; [contradiction | discriminate].
  - intros Hp Hs. rewrite !Htable, Hp, Hs. reflexivity.
Qed.

Lemma availability_ignores_quantity_witness :
  getAvailability sample_plain_variant = in_stock.
Proof.
  apply (proj1 (availability_ignores_quantity sample_plain_variant
                  sample_plain_variant)).
  right. reflexivity.
Defined.




(** X4: the four return fields are emitted as a unit: all of them, carrying
    the settings' values, when a return policy URL is configured, and none
    of them otherwise, whatever the return flags of the settings are. *)
Theorem returns_block_unit (product : Product.t) (variant : Variant.t)
    (shopInfo : ShopInfo.t) (settings : FeedSettings.t) (item : Item.t) :
  mapVariantToFeedItem product variant shopInfo settings = Some item ->
  (forall url, FeedSettings.return_policy_url settings = Some url -> url <> [] ->
     Item.return_policy item = Some url
     /\ Item.accepts_returns item = Some (FeedSettings.accepts_returns settings)
     /\ Item.return_deadline_in_days item
        = Some (FeedSettings.return_deadline_days settings)
     /\ Item.accepts_exchanges item
        = Some (FeedSettings.accepts_exchanges settings))
  /\ (FeedSettings.return_policy_url settings = None
      \/ FeedSettings.return_policy_url settings = Some [] ->
      Item.return_policy item = None
      /\ Item.accepts_returns item = None
      /\ Item.return_deadline_in_days item = None
      /\ Item.accepts_exchanges item = None).
Proof.
  intros H. open_mapper H.
  cbn [Item.return_policy Item.accepts_returns Item.return_deadline_in_days
       Item.accepts_exchanges].
  split.
  - intros url -> Hurl. cbn [truthy_opt].
    rewrite (proj2 (truthy_true url) Hurl). cbn. auto.
  - intros [-> | ->]; cbn; auto.
Qed.

Lemma returns_block_unit_witness :
  exists item,
    mapVariantToFeedItem sample_product sample_variant sample_shop
      sample_settings = Some item
    /\ Item.return_policy item = None
    /\ Item.accepts_returns item = None.
Proof.
  eexists. split; [reflexivity |].
  destruct (proj2 (returns_block_unit sample_product sample_variant sample_shop
                     sample_settings _ eq_refl) (or_introl eq_refl))
    as (H1 & H2 & _).
  split; assumption.
Defined.

(** X5: when no image URL of the product holds a comma, splitting
    additional_image_urls on the comma gives back the product images other
    than the main image, in their order; the field is left out exactly when
    every product image is the main image. *)
Theorem additional_images_round_trip (product : Product.t)
    (variant : Variant.t) (shopInfo : ShopInfo.t) (settings : FeedSettings.t)
    (item : Item.t) :
  mapVariantToFeedItem product variant shopInfo settings = Some item ->
  Forall (Forall (fun c => c <> 44%N)) (Product.images product) ->
  let others :=
    List.filter (fun url => negb (str_eqb url (Item.image_url item)))
                (Product.images product) in
  (Item.additional_image_urls item = None
   <-> Forall (fun url => url = Item.image_url item) (Product.images product))
  /\ (forall text, Item.additional_image_urls item = Some text ->
      split 44 text = others)
  /\ ~ In (Item.image_url item) others.
Proof.
  intros H Hcomma. open_mapper H.
  cbn [Item.additional_image_urls Item.image_url].
  set (main := mainImage product variant).
  set (others := List.filter (fun url => negb (str_eqb url main))
                             (Product.images product)).
  cbv zeta.
  assert (Hnone : others = []
                  <-> Forall (fun url => url = main) (Product.images product)).
  { subst others. generalize (Product.images product). clear.
    intros images. induction images as [| u us IH];
      cbn [List.filter]; [split; auto |].
    destruct (str_eqb u main) eqn:Hu; cbn [negb].
    - apply str_eqb_true in Hu. rewrite IH. split.
      + intros Hall. constructor; assumption.
      + intros Hall. inversion Hall; assumption.
    - apply str_eqb_false in Hu. split; [discriminate |].
      intros Hall. inversion Hall; contradiction. }
  split; [| split].
  - rewrite <- Hnone. destruct others; cbn; split; congruence.
  - intros text Htext. unfold when in Htext.
    destruct (Nat.ltb 0 (length others)) eqn:Hlen; [| discriminate].
    change (lit ",") with [44%N] in Htext.
    assert (Htext' : text = join [44%N] others) by congruence.
    rewrite Htext'. apply split_join.
    { intros Hnil. rewrite Hnil in Hlen. discriminate. }
    subst others.
    apply Forall_forall. intros url Hin.
    apply list_elem_of_In, filter_In in Hin as [Hin _].
    rewrite Forall_forall in Hcomma. apply Hcomma. now apply list_elem_of_In.
  - subst others. intros Hin. apply filter_In in Hin as [_ Hin].
    apply negb_true_iff, str_eqb_false in Hin. congruence.
Qed.

Lemma additional_images_round_trip_witness :
  exists item,
    mapVariantToFeedItem sample_product sample_variant sample_shop
      sample_settings = Some item
    /\ Item.additional_image_urls item = None.
Proof.
  eexists. split; [reflexivity |].
  apply (proj1 (additional_images_round_trip sample_product sample_variant
                  sample_shop sample_settings _ eq_refl
                  ltac:(vm_compute; repeat constructor; discriminate))).
  vm_compute. repeat constructor.
Defined.

(** The option an extraction looks at: the first one whose name is the
    wanted name, letter case apart. *)
Lemma extractOption_first (variant : Variant.t) (wanted : str)
    (before after : list SelectedOption.t) (option : SelectedOption.t) :
  Variant.selectedOptions variant = before ++ option :: after ->
  Forall (fun o => toLowerCase (SelectedOption.name o) <> toLowerCase wanted)
         before ->
  toLowerCase (SelectedOption.name option) = toLowerCase wanted ->
  extractOption variant wanted
  = if str_eqb (SelectedOption.value option) DefaultTitle then None
    else Some (SelectedOption.value option).
Proof.
  intros Hopts Hbefore Hname. unfold extractOption. rewrite Hopts.
  clear Hopts. induction Hbefore as [| o before Ho _ IH]; cbn [app List.find].
  - now rewrite (proj2 (str_eqb_true _ _) Hname).
  - now rewrite (proj2 (str_eqb_false _ _) Ho).
Qed.

Lemma extractOption_none (variant : Variant.t) (wanted : str) :
  Forall (fun o => toLowerCase (SelectedOption.name o) <> toLowerCase wanted)
         (Variant.selectedOptions variant) ->
  extractOption variant wanted = None.
Proof.
  unfold extractOption. generalize (Variant.selectedOptions variant).
  induction 1 as [| o opts Ho _ IH]; cbn [List.find]; [reflexivity |].
  now rewrite (proj2 (str_eqb_false _ _) Ho).
Qed.

(** X6: color and size are read from the first option whose name is "color"
    (or "size"), letter case apart: the field is the value of that option,
    and it is left out when that value is empty or the sentinel
    "Default Title", even if a later option of the same name has a value;
    without such an option the field is left out. *)
Theorem color_and_size_from_first_match (product : Product.t)
    (variant : Variant.t) (shopInfo : ShopInfo.t) (settings : FeedSettings.t)
    (item : Item.t) :
  mapVariantToFeedItem product variant shopInfo settings = Some item ->
  let field (wanted : str) :=
    if str_eqb wanted (lit "color") then Item.color item else Item.size item in
  forall wanted, wanted = lit "color" \/ wanted = lit "size" ->
  (forall before option after,
     Variant.selectedOptions variant = before ++ option :: after ->
     Forall (fun o => toLowerCase (SelectedOption.name o) <> wanted) before ->
     toLowerCase (SelectedOption.name option) = wanted ->
     field wanted
     = if (str_eqb (SelectedOption.value option) DefaultTitle
           || str_eqb (SelectedOption.value option) [])%bool
       then None else Some (SelectedOption.value option))
  /\ (Forall (fun o => toLowerCase (SelectedOption.name o) <> wanted)
             (Variant.selectedOptions variant) ->
      field wanted = None).
Proof.
  intros H field wanted Hwanted. open_mapper H.
  assert (Hlower : toLowerCase wanted = wanted)
    by (destruct Hwanted as [-> | ->]; reflexivity).
  assert (Hfield : field wanted = keep_truthy (extractOption variant wanted)).
  { subst field. destruct Hwanted as [-> | ->]; reflexivity. }
  rewrite Hfield. clear Hfield field. split.
  - intros before option after Hopts Hbefore Hname.
    rewrite (extractOption_first variant wanted before after option Hopts);
      [| now rewrite Hlower | now rewrite Hlower].
    destruct (str_eqb (SelectedOption.value option) DefaultTitle);
      [reflexivity |].
    cbn [orb keep_truthy].
    destruct (SelectedOption.value option); reflexivity.
  - intros Hnone. rewrite extractOption_none; [reflexivity |].
    now rewrite Hlower.
Qed.

Lemma color_and_size_from_first_match_witness :
  exists item,
    mapVariantToFeedItem sample_product sample_variant sample_shop
      sample_settings = Some item
    /\ Item.color item = None.
Proof.
  eexists. split; [reflexivity |].
  apply (proj2 (color_and_size_from_first_match sample_product sample_variant
                  sample_shop sample_settings _ eq_refl (lit "color")
                  (or_introl eq_refl))).
  vm_compute. repeat constructor; discriminate.
Defined.

(** ** Text normalizer, continued *)

Lemma cut_tags_no_open (sep s : str) :
  Forall (fun c => c <> 60%N) s -> Spec.cut_tags sep false s = s.
Proof.
  induction 1 as [| c s Hc _ IH]; [reflexivity |].
  cbn [Spec.cut_tags]. rewrite (proj2 (N.eqb_neq c 60)) by assumption.
  cbn [andb]. now rewrite IH.
Qed.

Lemma decode_entity_no_amp (name text s : str) :
  Forall (fun c => c <> 38%N) s ->
  Spec.decode_entity (38%N :: name) text O s = s.
Proof.
  induction 1 as [| c s Hc _ IH]; [reflexivity |].
  cbn [Spec.decode_entity starts_with].
  rewrite (proj2 (N.eqb_neq 38 c)) by congruence. cbn [andb]. now rewrite IH.
Qed.

Lemma decode_no_amp (s : str) :
  Forall (fun c => c <> 38%N) s -> Spec.decode s = s.
Proof.
  intros H. unfold Spec.decode, Spec.entities. cbn [fold_left fst snd].
  change (lit "&nbsp;") with (38%N :: lit "nbsp;").
  change (lit "&amp;") with (38%N :: lit "amp;").
  change (lit "&lt;") with (38%N :: lit "lt;").
  change (lit "&gt;") with (38%N :: lit "gt;").
  change (lit "&quot;") with (38%N :: lit "quot;").
  change (lit "&#39;") with (38%N :: lit "#39;").
  rewrite (decode_entity_no_amp (lit "nbsp;") _ s H).
  rewrite (decode_entity_no_amp (lit "amp;") _ s H).
  rewrite (decode_entity_no_amp (lit "lt;") _ s H).
  rewrite (decode_entity_no_amp (lit "gt;") _ s H).
  rewrite (decode_entity_no_amp (lit "quot;") _ s H).
  apply (decode_entity_no_amp (lit "#39;") _ s H).
Qed.

Lemma collapse_spaced (after_space : bool) (s : str) :
  single_spaced s = true ->
  (after_space = true -> starts_clean s = true) ->
  Spec.collapse after_space s = s.
Proof.
  revert after_space. induction s as [| c s IH]; intros b Hs Hb;
    [reflexivity |].
  cbn [single_spaced] in Hs. apply andb_true_iff in Hs as [Hc Hs].
  cbn [Spec.collapse]. destruct (is_space c) eqn:Hsp.
  - cbn [negb orb] in Hc. apply andb_true_iff in Hc as [Hc Hnext].
    apply N.eqb_eq in Hc. subst c.
    destruct b.
    + specialize (Hb eq_refl). cbn [starts_clean] in Hb.
      rewrite Hsp in Hb. discriminate.
    + cbn [app]. f_equal. now apply IH.
  - f_equal. apply IH; [assumption | discriminate].
Qed.

Lemma drop_spaces_clean_id (s : str) :
  starts_clean s = true -> drop_spaces s = s.
Proof.
  destruct s as [| c s]; [reflexivity |]. cbn [starts_clean drop_spaces].
  intros H. apply negb_true_iff in H. now rewrite H.
Qed.

Lemma trim_end_clean_id (s : str) :
  is_space (List.last s 0%N) = false -> trim_end s = s.
Proof.
  induction s as [| c s IH]; [reflexivity |].
  intros Hlast. cbn [trim_end]. destruct s as [| d s].
  - cbn [trim_end]. cbn [List.last] in Hlast. now rewrite Hlast.
  - rewrite IH by exact Hlast. reflexivity.
Qed.

(** X7: a text that holds no [<] and no [&] and is already normalized (no
    white space at either end, none but single plain spaces inside) is left
    as it is, so [stripHtml] leaves its own results alone when they hold
    neither character. *)
Theorem stripHtml_fixed_point (text : str) :
  Forall (fun c => c <> 60%N) text ->
  Forall (fun c => c <> 38%N) text ->
  normalized text = true ->
  stripHtml text = text.
Proof.
  intros Hopen Hamp Hnorm. rewrite stripHtml_walks.
  unfold Spec.stripMarkup_spaced.
  rewrite cut_tags_no_open, decode_no_amp by assumption.
  unfold normalized in Hnorm.
  apply andb_true_iff in Hnorm as [Hnorm Hlast].
  apply andb_true_iff in Hnorm as [Hstart Hspaced].
  apply negb_true_iff in Hlast.
  rewrite collapse_spaced by (assumption || discriminate).
  unfold trim. rewrite drop_spaces_clean_id by assumption.
  now apply trim_end_clean_id.
Qed.

Lemma stripHtml_fixed_point_witness :
  stripHtml (lit "A mug") = lit "A mug".
Proof.
  apply stripHtml_fixed_point.
  - vm_compute. repeat constructor; discriminate.
  - vm_compute. repeat constructor; discriminate.
  - reflexivity.
Defined.

Lemma spaces_no_markup (s : str) :
  Forall (fun c => is_space c = true) s ->
  Forall (fun c => c <> 60%N) s /\ Forall (fun c => c <> 38%N) s.
Proof.
  intros H. split; (eapply Forall_impl; [exact H |]);
    intros c Hc ->; discriminate.
Qed.

Lemma collapse_blank (s : str) :
  Forall (fun c => is_space c = true) s -> Spec.collapse true s = [].
Proof.
  induction 1 as [| c s Hc _ IH]; [reflexivity |].
  cbn [Spec.collapse]. now rewrite Hc, IH.
Qed.

(** A text of white space only is normalized to the empty text. *)
Lemma stripHtml_blank (s : str) :
  Forall (fun c => is_space c = true) s -> stripHtml s = [].
Proof.
  intros H. rewrite stripHtml_walks. unfold Spec.stripMarkup_spaced.
  destruct (spaces_no_markup s H) as [Hopen Hamp].
  rewrite cut_tags_no_open, decode_no_amp by assumption.
  destruct H as [| c s Hc Hs]; [reflexivity |].
  cbn [Spec.collapse]. rewrite Hc, collapse_blank by assumption. reflexivity.
Qed.

(** X8: the description of a record is the product's plain description when
    that is not empty; with an empty plain description and an HTML
    description of white space only it is the product title; and it is never
    empty for a product whose title is not empty. *)
Theorem description_fallback (product : Product.t) (variant : Variant.t)
    (shopInfo : ShopInfo.t) (settings : FeedSettings.t) (item : Item.t) :
  mapVariantToFeedItem product variant shopInfo settings = Some item ->
  (Product.description product <> [] ->
   Item.description item = Product.description product)
  /\ (Product.description product = [] ->
      Forall (fun c => is_space c = true) (Product.descriptionHtml product) ->
      Item.description item = Product.title product)
  /\ (Product.title product <> [] -> Item.description item <> []).
Proof.
  intros H. open_mapper H. cbn [Item.description]. unfold or_str.
  split; [| split].
  - intros Hd. now rewrite (proj2 (truthy_true _) Hd).
  - intros -> Hblank. now rewrite stripHtml_blank.
  - intros Ht.
    destruct (truthy (Product.description product)) eqn:Hd;
      [now apply truthy_true |].
    destruct (truthy (stripHtml (Product.descriptionHtml product))) eqn:Hh;
      [now apply truthy_true | assumption].
Qed.

Lemma description_fallback_witness :
  exists item,
    mapVariantToFeedItem sample_blank_product sample_variant sample_shop
      sample_settings = Some item
    /\ Item.description item = lit "Cup".
Proof.
  eexists. split; [reflexivity |].
  apply (proj1 (proj2 (description_fallback sample_blank_product sample_variant
                         sample_shop sample_settings _ eq_refl)));
    [reflexivity | vm_compute; repeat constructor].
Defined.

(** ** Field derivers, continued *)







Lemma last_slash (s : str) :
  Forall (fun c => c <> 47%N) s
  \/ exists prefix segment,
       s = prefix ++ 47%N :: segment /\ Forall (fun c => c <> 47%N) segment.
Proof.
  induction s as [| c s [IH | (prefix & segment & -> & IH)]].
  - left. constructor.
  - destruct (N.eq_dec c 47%N) as [-> | Hc].
    + right. exists [], s. split; [reflexivity | assumption].
    + left. constructor; assumption.
  - right. exists (c :: prefix), segment. split; [reflexivity | assumption].
Qed.

(** X10: the identifier taken from a global id is what follows its last
    slash, and the whole id when it has no slash; it never holds a slash
    and it is always the end of the global id. *)
Theorem extractShopifyId_last_segment (gid : str) :
  (Forall (fun c => c <> 47%N) gid -> extractShopifyId gid = gid)
  /\ (forall prefix segment,
        gid = prefix ++ 47%N :: segment ->
        Forall (fun c => c <> 47%N) segment ->
        extractShopifyId gid = segment)
  /\ Forall (fun c => c <> 47%N) (extractShopifyId gid)
  /\ exists prefix, gid = prefix ++ extractShopifyId gid.
Proof.
  assert (Hwhole : Forall (fun c => c <> 47%N) gid -> extractShopifyId gid = gid).
  { intros H. unfold extractShopifyId. now rewrite split_no_sep. }
  split; [exact Hwhole |]. split.
  { intros prefix segment -> Hseg. now apply extractShopifyId_segment. }
  destruct (last_slash gid) as [H | (prefix & segment & -> & Hseg)].
  - rewrite Hwhole by assumption. split; [assumption | now exists []].
  - rewrite extractShopifyId_segment by assumption.
    split; [assumption |]. exists (prefix ++ [47%N]).
    now rewrite <- app_assoc.
Qed.

Lemma extractShopifyId_last_segment_witness :
  extractShopifyId (lit "gid://shopify/Product/7") = lit "7".
Proof.
  apply (proj1 (proj2 (extractShopifyId_last_segment
                         (lit "gid://shopify/Product/7")))
           (lit "gid://shopify/Product") (lit "7") eq_refl).
  vm_compute. repeat constructor. discriminate.
Defined.

Lemma no_slash_match (c d : N) (t : str) :
  match_here trailing_slash (c :: d :: t) = None.
Proof.
  unfold trailing_slash. cbn [match_here]. destruct (N.eqb 47 c); reflexivity.
Qed.

Lemma replace_first_skip (r : regex) (rep : str) (c : N) (s : str) :
  match_here r (c :: s) = None ->
  replace_first r rep (c :: s) = c :: replace_first r rep s.
Proof.
  intros H.
  change (replace_first r rep (c :: s))
    with (match match_here r (c :: s) with
          | Some n => rep ++ skipn n (c :: s)
          | None => c :: replace_first r rep s
          end).
  now rewrite H.
Qed.

Lemma strip_one_slash (s : str) :
  replace_first trailing_slash [] (s ++ [47%N]) = s.
Proof.
  induction s as [| c s IH]; [reflexivity |].
  cbn [app]. destruct (s ++ [47%N]) as [| d t] eqn:E.
  - now apply app_eq_nil in E as [_ E].
  - rewrite replace_first_skip by apply no_slash_match. now rewrite IH.
Qed.

Lemma strip_no_slash (s : str) :
  List.last s 0%N <> 47%N -> replace_first trailing_slash [] s = s.
Proof.
  induction s as [| c s IH]; [reflexivity |].
  intros Hlast. destruct s as [| d s].
  - cbn [List.last] in Hlast. cbn [replace_first]. unfold trailing_slash.
    cbn [match_here]. rewrite (proj2 (N.eqb_neq 47 c)) by congruence.
    reflexivity.
  - rewrite replace_first_skip by apply no_slash_match.
    f_equal. apply IH. exact Hlast.
Qed.

(** X11: a product URL is built without a doubled slash: one slash at the
    end of the shop URL is dropped before "/products/" and the handle are
    added, and a shop URL that does not end in a slash is used as it is. *)
Theorem buildProductUrl_joins (shopUrl handle : str) :
  buildProductUrl (shopUrl ++ lit "/") handle
  = shopUrl ++ lit "/products/" ++ handle
  /\ (List.last shopUrl 0%N <> 47%N ->
      buildProductUrl shopUrl handle = shopUrl ++ lit "/products/" ++ handle).
Proof.
  unfold buildProductUrl. split.
  - change (lit "/") with [47%N]. now rewrite strip_one_slash.
  - intros H. now rewrite strip_no_slash.
Qed.

Lemma buildProductUrl_joins_witness :
  buildProductUrl (lit "https://mugs.example") (lit "mug")
  = lit "https://mugs.example/products/mug".
Proof.
  apply (proj2 (buildProductUrl_joins (lit "https://mugs.example") (lit "mug"))).
  vm_compute. discriminate.
Defined.

(** ** Batch mapper, continued *)

Lemma omap_length_le {A B} (f : A -> option B) (l : list A) :
  (length (omap f l) <= length l)%nat.
Proof.
  induction l as [| x l IH]; cbn [omap list_omap length]; [lia |].
  destruct (f x); cbn [length]; lia.
Qed.

Lemma omap_all_some {A B} (f : A -> option B) (l : list A) :
  Forall (fun x => f x <> None) l -> length (omap f l) = length l.
Proof.
  induction 1 as [| x l Hx _ IH]; [reflexivity |].
  cbn [omap list_omap]. destruct (f x); [| congruence].
  cbn [length]. now rewrite IH.
Qed.

(** X12: the batch mapper works product by product: the records of two
    catalogs put end to end are the records of the first followed by those
    of the second.  It emits at most one record per variant, and exactly one
    per variant when every product is ACTIVE and every variant has a main
    image. *)
Theorem mapProductsToFeed_app (products more : list Product.t)
    (shopInfo : ShopInfo.t) (settings : FeedSettings.t) :
  mapProductsToFeed (products ++ more) shopInfo settings
  = mapProductsToFeed products shopInfo settings
    ++ mapProductsToFeed more shopInfo settings
  /\ (length (mapProductsToFeed products shopInfo settings)
      <= list_sum (map (fun p => length (Product.variants p)) products))%nat
  /\ (Forall (fun p =>
                Product.status p = lit "ACTIVE"
                /\ Forall (fun v => mainImage p v <> []) (Product.variants p))
             products ->
      length (mapProductsToFeed products shopInfo settings)
      = list_sum (map (fun p => length (Product.variants p)) products)).
Proof.
  rewrite !mapProductsToFeed_flat. split; [apply flat_map_app |]. split.
  - unfold list_sum. induction products as [| p products IH];
      cbn [flat_map map foldr fold_right length]; [lia |].
    rewrite length_app. unfold records_of at 1.
    pose proof (omap_length_le
                  (fun v => mapVariantToFeedItem p v shopInfo settings)
                  (Product.variants p)).
    lia.
  - unfold list_sum. induction 1 as [| p products [Hactive Himages] _ IH];
      cbn [flat_map map foldr fold_right length]; [reflexivity |].
    rewrite length_app, IH. f_equal. unfold records_of.
    apply omap_all_some.
    eapply Forall_impl; [exact Himages |]. intros v Hv Hnone.
    unfold mapVariantToFeedItem in Hnone.
    rewrite (proj2 (str_eqb_true _ _) Hactive) in Hnone. cbn [negb] in Hnone.
    rewrite (proj2 (truthy_true _) Hv) in Hnone. discriminate.
Qed.

Lemma mapProductsToFeed_app_witness :
  length (mapProductsToFeed [sample_product] sample_shop sample_settings)
  = 1%nat.
Proof.
  apply (proj2 (proj2 (mapProductsToFeed_app [sample_product] [] sample_shop
                         sample_settings))).
  repeat constructor; vm_compute; discriminate.
Defined.

(** ** JSON text, continued *)

(** X13: quoting a text and reading the quoted text back gives the text,
    whatever code units it holds (quotes, backslashes, control characters,
    surrogates paired or not); the quoted text holds no control character,
    so no line break; and two texts with the same quoted text are equal. *)
Theorem quote_round_trip (s t : str) :
  Json.read_value (quote s) = Some (JStr s, [])
  /\ Forall printable (quote s)
  /\ (quote s = quote t -> s = t).
Proof.
  assert (Hread : forall u, Json.read_value (quote u) = Some (JStr u, [])).
  { intros u. unfold quote. cbn [Json.read_value].
    change (N.eqb 34 34) with true. cbn iota.
    now rewrite read_quote_units. }
  split; [apply Hread |]. split; [apply quote_printable |].
  intros Heq. pose proof (Hread s) as Hs. rewrite Heq, Hread in Hs.
  congruence.
Qed.

Lemma quote_round_trip_witness :
  Json.read_value (quote [34%N; 10%N; 55357%N]) = Some (JStr [34%N; 10%N; 55357%N], []).
Proof. apply (quote_round_trip [34%N; 10%N; 55357%N] []). Defined.

(** ** Settings store, continued *)

(** X14: on a shop that has a settings row, [getFeedSettings] only reads:
    whether its SELECT fails or not, no table changes and the journal gains
    the one SELECT; it returns the stored row coerced, or rejects when the
    SELECT fails. *)
Theorem getFeedSettings_reads_only (w : World) (shop : str) (db : D1Database)
    (row : gmap Col.t sqlval) (r : result FeedSettings.t) (db' : D1Database) :
  feed_settings db !! shop = Some row ->
  getFeedSettings w shop db = (r, db') ->
  feed_settings db' = feed_settings db
  /\ feed_cache db' = feed_cache db
  /\ journal db' = journal db ++ [SelectSettings shop]
  /\ (fault w (length (journal db)) = false ->
      r = Ok (settings_of_row shop row))
  /\ (fault w (length (journal db)) = true -> exists e, r = Throw e).
Proof.
  intros Hrow H. unfold getFeedSettings, first_settings, bind, peek, ret in H.
  destruct (run w (SelectSettings shop) db) as [[[] | e] db1] eqn:H1;
    apply run_effect in H1
      as (Hj1 & [((e1 & He1) & Hs1 & Hc1 & Hwhy) | (Hr1 & Hf1 & Hs1 & Hc1)]);
    try discriminate.
  - rewrite Hs1, Hrow in H. injection H as <- <-.
    repeat split; auto. congruence.
  - injection H as <- <-. repeat split; auto.
    + destruct Hwhy as [Hf | (s & Hst & _)]; [congruence | discriminate].
    + eauto.
Qed.

Lemma getFeedSettings_reads_only_witness :
  feed_settings
    (snd (getFeedSettings quiet_world sample_shop_key
            (snd (getFeedSettings quiet_world sample_shop_key empty_db))))
  = feed_settings (snd (getFeedSettings quiet_world sample_shop_key empty_db)).
Proof.
  apply (getFeedSettings_reads_only quiet_world sample_shop_key
           (snd (getFeedSettings quiet_world sample_shop_key empty_db))
           (inserted_row quiet_world) _ _ eq_refl (surjective_pairing _)).
Defined.

(** The settings read when no statement fails: the row found or created. *)
Lemma getFeedSettings_quiet (w : World) (shop : str) (db : D1Database) :
  (forall n, fault w n = false) ->
  let row := default (inserted_row w) (feed_settings db !! shop) in
  exists db1,
    getFeedSettings w shop db = (Ok (settings_of_row shop row), db1)
    /\ feed_settings db1 !! shop = Some row
    /\ (forall s, s <> shop -> feed_settings db1 !! s = feed_settings db !! s)
    /\ feed_cache db1 = feed_cache db.
Proof.
  intros Hf. destruct (feed_settings db !! shop) as [row |] eqn:Hrow;
    cbv zeta; cbn [default from_option id].
  - rewrite (getFeedSettings_existing w shop db row) by auto.
    eexists. split; [reflexivity |]. cbn [feed_settings feed_cache]. auto.
  - rewrite (getFeedSettings_fresh w shop db) by auto.
    rewrite settings_of_inserted_row.
    eexists. split; [reflexivity |]. cbn [feed_settings feed_cache].
    split; [apply lookup_insert_eq |].
    split; [intros s Hs; now apply lookup_insert_ne | reflexivity].
Qed.

(** The partial update when no statement fails, column by column. *)
Lemma updateFeedSettings_quiet (w : World) (shop : str) (updates : Updates.t)
    (db : D1Database) :
  (forall n, fault w n = false) ->
  let before := default (inserted_row w) (feed_settings db !! shop) in
  exists db' after,
    updateFeedSettings w shop updates db = (Ok tt, db')
    /\ feed_settings db' !! shop = Some after
    /\ (forall s, s <> shop -> feed_settings db' !! s = feed_settings db !! s)
    /\ feed_cache db' = feed_cache db
    /\ forall c, c <> Col.updated_at ->
         after !! c
         = match written updates c with
           | Some v => Some v
           | None => before !! c
           end.
Proof.
  intros Hf before.
  destruct (getFeedSettings_quiet w shop db Hf) as (db1 & Hget & Hrow & Hs & Hc).
  fold before in Hget, Hrow.
  unfold updateFeedSettings, bind. rewrite Hget. cbv zeta.
  destruct (Nat.eqb (length (update_fields updates)) 0) eqn:Hlen.
  - exists db1, before. unfold ret. repeat split; auto.
    intros c _.
    now rewrite (proj1 (update_fields_empty updates) Hlen).
  - unfold run. rewrite Hf. eexists. eexists.
    split; [reflexivity |]. cbn [feed_settings feed_cache].
    split; [rewrite lookup_alter_eq, Hrow; reflexivity |].
    split; [intros s Hne; rewrite lookup_alter_ne by auto; now apply Hs |].
    split; [assumption |].
    intros c Hne. rewrite assign_lookup, last_binding_snoc.
    rewrite update_fields_binding.
    destruct (decide (Col.updated_at = c)); [congruence | reflexivity].
Qed.

Lemma Boolean_flag (b : bool) : Boolean (Some (flag b)) = b.
Proof. destruct b; reflexivity. Qed.

Lemma as_text_nullable (s : option str) : as_text (Some (nullable s)) = s.
Proof. destruct s; reflexivity. Qed.

(** The settings read from a row that differs from another as an update
    writes. *)
Lemma settings_after_update (shop : str) (updates : Updates.t)
    (before after : gmap Col.t sqlval) :
  (forall c, c <> Col.updated_at ->
     after !! c
     = match written updates c with
       | Some v => Some v
       | None => before !! c
       end) ->
  settings_of_row shop after = read_back updates (settings_of_row shop before).
Proof.
  intros Hcols. unfold settings_of_row, read_back.
  cbn [FeedSettings.shop FeedSettings.enable_search FeedSettings.enable_checkout
       FeedSettings.seller_name FeedSettings.seller_url
       FeedSettings.privacy_policy_url FeedSettings.terms_of_service_url
       FeedSettings.return_policy_url FeedSettings.accepts_returns
       FeedSettings.return_deadline_days FeedSettings.accepts_exchanges
       FeedSettings.store_country FeedSettings.target_countries].
  rewrite !Hcols by discriminate. cbn [written].
  destruct updates as [ushop us uc un uu up ut ur uar ud uae usc utc].
  cbn [Updates.enable_search Updates.enable_checkout Updates.seller_name
       Updates.seller_url Updates.privacy_policy_url
       Updates.terms_of_service_url Updates.return_policy_url
       Updates.accepts_returns Updates.return_deadline_days
       Updates.accepts_exchanges Updates.store_country
       Updates.target_countries].
  f_equal.
  - destruct us; cbn; [apply Boolean_flag | reflexivity].
  - destruct uc; cbn; [apply Boolean_flag | reflexivity].
  - destruct un; cbn; [apply as_text_nullable | reflexivity].
  - destruct uu; cbn; [apply as_text_nullable | reflexivity].
  - destruct up; cbn; [apply as_text_nullable | reflexivity].
  - destruct ut; cbn; [apply as_text_nullable | reflexivity].
  - destruct ur; cbn; [apply as_text_nullable | reflexivity].
  - destruct uar; cbn; [apply Boolean_flag | reflexivity].
  - destruct ud; reflexivity.
  - destruct uae; cbn; [apply Boolean_flag | reflexivity].
  - destruct usc; reflexivity.
  - destruct utc; reflexivity.
Qed.

(** An update and the read after it, when no statement fails. *)
Lemma update_then_get_quiet (w : World) (shop : str) (updates : Updates.t)
    (db : D1Database) :
  (forall n, fault w n = false) ->
  let before := default (inserted_row w) (feed_settings db !! shop) in
  exists db1 db2,
    updateFeedSettings w shop updates db = (Ok tt, db1)
    /\ getFeedSettings w shop db1
       = (Ok (read_back updates (settings_of_row shop before)), db2)
    /\ feed_cache db2 = feed_cache db
    /\ (forall s, s <> shop -> feed_settings db2 !! s = feed_settings db !! s).
Proof.
  intros Hf before.
  destruct (updateFeedSettings_quiet w shop updates db Hf)
    as (db1 & after & Hrun & Hrow & Hs & Hc & Hcols).
  fold before in Hcols.
  exists db1. eexists. split; [exact Hrun |].
  rewrite (getFeedSettings_existing w shop db1 after) by auto.
  rewrite (settings_after_update shop updates before after Hcols).
  split; [reflexivity |]. cbn [feed_cache feed_settings]. auto.
Qed.

(** X15: reading the settings after a partial update gives the settings read
    before it with the present fields replaced, as the read coerces them:
    a return deadline of 0 days reads back as 30 and an empty store or
    target country reads back as "US"; every absent field reads back as
    before. *)
Theorem update_then_get (w : World) (shop : str) (updates : Updates.t)
    (db : D1Database) :
  (forall n, fault w n = false) ->
  let before := default (inserted_row w) (feed_settings db !! shop) in
  exists db1 db2,
    updateFeedSettings w shop updates db = (Ok tt, db1)
    /\ getFeedSettings w shop db1
       = (Ok (read_back updates (settings_of_row shop before)), db2).
Proof.
  intros Hf before.
  destruct (update_then_get_quiet w shop updates db Hf)
    as (db1 & db2 & Hrun & Hget & _).
  exists db1, db2. split; assumption.
Qed.

Lemma update_then_get_witness :
  exists db1 db2,
    updateFeedSettings quiet_world sample_shop_key sample_updates empty_db
    = (Ok tt, db1)
    /\ getFeedSettings quiet_world sample_shop_key db1
       = (Ok (read_back sample_updates
                (settings_of_row sample_shop_key (inserted_row quiet_world))),
          db2).
Proof.
  exact (update_then_get quiet_world sample_shop_key sample_updates empty_db
           (fun _ => eq_refl)).
Defined.

(** ** Feed cache and orchestrator, continued *)

(** The stamp of a generation leaves every column the settings are read
    from as it is. *)
Lemma settings_of_stamped (w : World) (items : list Item.t) (shop : str)
    (row : gmap Col.t sqlval) :
  settings_of_row shop (assign (stamp w items) row) = settings_of_row shop row.
Proof.
  unfold settings_of_row, stamp, assign. cbn [fold_left fst snd].
  now rewrite !lookup_insert_ne by discriminate.
Qed.

Lemma stamp_twice (w : World) (items : list Item.t) (row : gmap Col.t sqlval) :
  assign (stamp w items) (assign (stamp w items) row)
  = assign (stamp w items) row.
Proof.
  apply map_eq. intros c. rewrite !assign_lookup.
  destruct (last_binding c (stamp w items)); reflexivity.
Qed.

(** A generation when no statement fails and both fetches resolve. *)
Lemma generateFeed_quiet (w : World) (shop : str) (db : D1Database)
    (shopInfo : ShopInfo.t) (products : list Product.t) :
  (forall n, fault w n = false) ->
  fetchShopInfo w = Ok shopInfo ->
  fetchAllProducts w = Ok products ->
  let row := default (inserted_row w) (feed_settings db !! shop) in
  let items := mapProductsToFeed products shopInfo (settings_of_row shop row) in
  exists db',
    generateFeed w shop db
    = ({| success := true; productCount := Z.of_nat (length items);
          error := None |}, db')
    /\ feed_settings db' !! shop = Some (assign (stamp w items) row)
    /\ (forall s, s <> shop -> feed_settings db' !! s = feed_settings db !! s)
    /\ feed_cache db' = <[shop := generated_row w items]> (feed_cache db).
Proof.
  intros Hf Hinfo Hproducts row items.
  destruct (getFeedSettings_quiet w shop db Hf) as (db1 & Hget & Hrow & Hs & Hc).
  fold row in Hget, Hrow.
  unfold generateFeed, bind, Promise_all, await, ret.
  rewrite Hinfo, Hget, Hproducts. cbn [fst snd]. fold items.
  unfold run. rewrite ?Hf. cbn [feed_settings feed_cache journal].
  rewrite ?Hf. cbn [feed_settings feed_cache journal].
  eexists. split; [reflexivity |]. cbn [feed_settings feed_cache].
  split; [rewrite lookup_alter_eq, Hrow; reflexivity |].
  split; [intros s Hne; rewrite lookup_alter_ne by auto; now apply Hs |].
  rewrite Hc. reflexivity.
Qed.

(** X16: when neither fetch is rejected and no statement fails,
    [generateFeed] succeeds: it reports the number of records, replaces the
    cache row of the shop by the payload with that count and the time of the
    call, and stamps the settings row with the same time and count; the
    settings as they are read are the same after the stamp, the rows of the
    other shops are left alone, and, when there is a record, the reported
    count is the number of lines of the payload. *)
Theorem generateFeed_succeeds (w : World) (shop : str) (db : D1Database)
    (shopInfo : ShopInfo.t) (products : list Product.t) :
  (forall n, fault w n = false) ->
  fetchShopInfo w = Ok shopInfo ->
  fetchAllProducts w = Ok products ->
  exists r db' items stamped,
    generateFeed w shop db = (r, db')
    /\ success r = true /\ error r = None
    /\ productCount r = Z.of_nat (length items)
    /\ feed_cache db'
       = <[shop := CacheRow.mk (Some (feedItemsToJsonl items))
                     (Some (productCount r)) (Date_now w)]> (feed_cache db)
    /\ feed_settings db' !! shop = Some stamped
    /\ stamped !! Col.feed_generated_at = Some (Int (Date_now w))
    /\ stamped !! Col.product_count = Some (Int (productCount r))
    /\ stamped !! Col.updated_at = Some (Int (Date_now w))
    /\ items = mapProductsToFeed products shopInfo (settings_of_row shop stamped)
    /\ (forall s, s <> shop ->
          feed_settings db' !! s = feed_settings db !! s
          /\ feed_cache db' !! s = feed_cache db !! s)
    /\ (items <> [] ->
        Z.of_nat (length (split 10 (feedItemsToJsonl items))) = productCount r).
Proof.
  intros Hf Hinfo Hproducts.
  destruct (generateFeed_quiet w shop db shopInfo products Hf Hinfo Hproducts)
    as (db' & Hrun & Hrow & Hs & Hc).
  cbv zeta in *.
  set (row := default (inserted_row w) (feed_settings db !! shop)) in *.
  set (items := mapProductsToFeed products shopInfo (settings_of_row shop row))
    in *.
  eexists. exists db', items, (assign (stamp w items) row).
  split; [exact Hrun |]. cbn [success error productCount].
  do 3 (split; [reflexivity |]).
  split; [exact Hc |]. split; [exact Hrow |].
  do 3 (split; [rewrite assign_lookup; reflexivity |]).
  split; [now rewrite settings_of_stamped |].
  split.
  - intros s Hne. split; [now apply Hs |].
    rewrite Hc. now apply lookup_insert_ne.
  - intros Hne. f_equal. unfold feedItemsToJsonl.
    rewrite split_join, length_map; [reflexivity | |].
    + destruct items; [congruence | discriminate].
    + apply Forall_map, Forall_forall. intros item _.
      apply printable_no_newline, stringify_object_printable.
Qed.

Lemma generateFeed_succeeds_witness :
  exists r db',
    generateFeed stocked_world sample_shop_key empty_db = (r, db')
    /\ success r = true /\ productCount r = 1.
Proof.
  destruct (generateFeed_succeeds stocked_world sample_shop_key
              empty_db sample_shop [sample_product] (fun _ => eq_refl)
              eq_refl eq_refl)
    as (r & db' & items & stamped & Hrun & Hok & _ & Hcount & _).
  exists r, db'. split; [exact Hrun |]. split; [exact Hok |].
  vm_compute in Hrun. injection Hrun as <- _. reflexivity.
Defined.

(** X17: generating twice is generating once: when the first generation
    succeeded and no statement fails, a second generation in the same world
    (same catalog, same clock) returns the same result and leaves both
    tables as the first one left them. *)
Theorem generateFeed_twice (w : World) (shop : str) (db : D1Database)
    (r1 r2 : GenerateResult) (db1 db2 : D1Database) :
  (forall n, fault w n = false) ->
  generateFeed w shop db = (r1, db1) ->
  success r1 = true ->
  generateFeed w shop db1 = (r2, db2) ->
  r2 = r1
  /\ feed_cache db2 = feed_cache db1
  /\ feed_settings db2 = feed_settings db1.
Proof.
  intros Hf H1 Hok H2.
  pose proof H1 as Hcases.
  apply generateFeed_cases in Hcases
    as (rs & dbg & _ & [(Hfail & _) | (si & st & ps & Hinfo & _ & Hproducts & _)]);
    [congruence |].
  destruct (generateFeed_quiet w shop db si ps Hf Hinfo Hproducts)
    as (db1' & Hrun1 & Hrow1 & Hs1 & Hc1).
  rewrite H1 in Hrun1. injection Hrun1 as -> <-.
  destruct (generateFeed_quiet w shop db1 si ps Hf Hinfo Hproducts)
    as (db2' & Hrun2 & Hrow2 & Hs2 & Hc2).
  rewrite H2 in Hrun2. injection Hrun2 as -> <-.
  cbv zeta in *. rewrite Hrow1 in *. cbn [default from_option id] in *.
  rewrite settings_of_stamped in *.
  set (row := default (inserted_row w) (feed_settings db !! shop)) in *.
  set (items := mapProductsToFeed ps si (settings_of_row shop row)) in *.
  split; [reflexivity |]. split.
  - rewrite Hc2, Hc1. apply insert_insert_eq.
  - apply map_eq. intros s. destruct (decide (s = shop)) as [-> | Hne].
    + rewrite Hrow2, Hrow1. f_equal. apply stamp_twice.
    + now apply Hs2.
Qed.

Lemma generateFeed_twice_witness :
  feed_cache
    (snd (generateFeed quiet_world sample_shop_key
            (snd (generateFeed quiet_world sample_shop_key empty_db))))
  = feed_cache (snd (generateFeed quiet_world sample_shop_key empty_db)).
Proof.
  apply (generateFeed_twice quiet_world sample_shop_key empty_db _ _ _ _
           (fun _ => eq_refl) (surjective_pairing _) eq_refl
           (surjective_pairing _)).
Defined.

(** ** Catalog fetcher *)

Lemma pages_visits (admin : Shopify.Admin) (cursor : option str)
    (gathered : list Shopify.Page) (how : Shopify.ending) :
  Shopify.visits admin cursor gathered how ->
  forall fuel acc, (Shopify.requests gathered how <= fuel)%nat ->
  Shopify.pages fuel admin cursor acc
  = Some match how with
         | Shopify.Rejected e => Throw e
         | _ => Ok (acc ++ flat_map Shopify.edges gathered)
         end.
Proof.
  induction 1 as [cursor page Hpage Hlast | cursor Hnone | cursor e Hthrow
                 | cursor page rest how Hpage Hnext Hrest IH];
    intros [| fuel] acc Hfuel;
    try (cbn [Shopify.requests length] in Hfuel; lia);
    cbn [Shopify.pages flat_map].
  - rewrite Hpage, Hlast. now rewrite app_nil_r.
  - rewrite Hnone. now rewrite app_nil_r.
  - now rewrite Hthrow.
  - destruct how; cbn [Shopify.requests length] in Hfuel; lia.
  - rewrite Hpage, Hnext, IH.
    + destruct how; now rewrite <- ?app_assoc.
    + destruct how; cbn [Shopify.requests length] in *; lia.
Qed.

Lemma pages_explained (admin : Shopify.Admin) (fuel : nat) :
  forall cursor acc r,
  Shopify.pages fuel admin cursor acc = Some r ->
  exists gathered how,
    Shopify.visits admin cursor gathered how
    /\ (Shopify.requests gathered how <= fuel)%nat.
Proof.
  induction fuel as [| fuel IH]; intros cursor acc r H; [discriminate |].
  cbn [Shopify.pages] in H.
  destruct (admin cursor) as [[page |] | e] eqn:Hadmin.
  - destruct (Shopify.hasNextPage page) eqn:Hnext.
    + apply IH in H as (rest & how & Hvisits & Hlen).
      exists (page :: rest), how. split; [now constructor |].
      destruct how; cbn [Shopify.requests length] in *; lia.
    + exists [page], Shopify.Complete. split; [now constructor |].
      cbn [Shopify.requests length]. lia.
  - exists [], Shopify.Truncated.
    split; [now constructor | cbn [Shopify.requests length]; lia].
  - exists [], (Shopify.Rejected e).
    split; [now constructor | cbn [Shopify.requests length]; lia].
Qed.

(** X18: with a given number of requests allowed, [fetchAllProducts]
    returns exactly when the chain of cursors from the first request ends
    within that number: at a page without a next page, at a body without
    products, or at a rejected request.  In the first two cases it returns
    the products of the pages gathered, in order, so a body without products
    ends the catalog silently, like a last page; in the third the rejection
    is passed on and the pages gathered are lost. *)
Theorem fetchAllProducts_ends (admin : Shopify.Admin) (fuel : nat)
    (r : result (list Product.t)) :
  Shopify.fetchAllProducts fuel admin = Some r
  <-> exists gathered how,
        Shopify.visits admin None gathered how
        /\ (Shopify.requests gathered how <= fuel)%nat
        /\ r = Shopify.outcome gathered how.
Proof.
  unfold Shopify.fetchAllProducts. split.
  - intros H.
    destruct (pages_explained admin fuel None [] r H)
      as (gathered & how & Hvisits & Hlen).
    exists gathered, how. split; [assumption |]. split; [assumption |].
    rewrite (pages_visits admin None gathered how Hvisits fuel [] Hlen) in H.
    injection H as <-. destruct how; reflexivity.
  - intros (gathered & how & Hvisits & Hlen & ->).
    rewrite (pages_visits admin None gathered how Hvisits) by assumption.
    destruct how; reflexivity.
Qed.

Lemma fetchAllProducts_ends_witness :
  Shopify.fetchAllProducts 7 Shopify.broken_admin
  = Some (Ok [sample_product]).
Proof.
  apply (proj2 (fetchAllProducts_ends Shopify.broken_admin 7
                  (Ok [sample_product]))).
  exists [{| Shopify.edges := [sample_product]; Shopify.hasNextPage := true;
             Shopify.endCursor := Some (lit "c1") |}], Shopify.Truncated.
  split; [| split; [cbn; lia | reflexivity]].
  apply Shopify.visits_next; [reflexivity | reflexivity |].
  apply Shopify.visits_missing. reflexivity.
Defined.

(** ** Teardown *)

(** X19: when both deletes take effect, [deleteFeedData] leaves the shop
    without a settings row and without a cache row and the other shops as
    they were; a second teardown changes nothing; the cache read that
    follows returns the absent result, and the settings read that follows
    starts again from the defaults. *)
Theorem deleteFeedData_removes (w : World) (shop : str) (db : D1Database) :
  let db' := snd (deleteFeedData false false shop db) in
  fst (deleteFeedData false false shop db) = Ok tt
  /\ feed_settings db' !! shop = None
  /\ feed_cache db' !! shop = None
  /\ (forall s, s <> shop ->
        feed_settings db' !! s = feed_settings db !! s
        /\ feed_cache db' !! s = feed_cache db !! s)
  /\ deleteFeedData false false shop db' = (Ok tt, db')
  /\ (fault w (length (journal db')) = false ->
      fst (getCachedFeed w shop db') = Ok None)
  /\ ((forall n, fault w n = false) ->
      fst (getFeedSettings w shop db') = Ok (default_settings shop)).
Proof.
  cbv zeta. unfold deleteFeedData. cbn [fst snd orb].
  split; [reflexivity |].
  split; [apply lookup_delete_eq |].
  split; [apply lookup_delete_eq |].
  split.
  { intros s Hs. split; now apply lookup_delete_ne. }
  split.
  { cbn [feed_settings feed_cache journal].
    now rewrite !delete_delete_eq. }
  split.
  - intros Hf. rewrite getCachedFeed_run by exact Hf.
    cbn [feed_cache]. now rewrite lookup_delete_eq.
  - intros Hf. rewrite getFeedSettings_fresh; auto.
    cbn [feed_settings]. apply lookup_delete_eq.
Qed.

Lemma deleteFeedData_removes_witness :
  fst (getFeedSettings quiet_world sample_shop_key
         (snd (deleteFeedData false false sample_shop_key
                 (snd (generateFeed quiet_world sample_shop_key empty_db)))))
  = Ok (default_settings sample_shop_key).
Proof.
  apply (deleteFeedData_removes quiet_world sample_shop_key
           (snd (generateFeed quiet_world sample_shop_key empty_db))).
  intros n. reflexivity.
Defined.

(** ** The public feed route *)


(** X20: the public feed route answers as the cache read of the service
    returns: 200 with the cached payload, its count and its time when the
    read is present, the "Feed not found" 404 when the read is absent (no
    row, or a row with an empty payload), and 500 when the read is
    rejected; it leaves the store as that read leaves it, so it writes
    nothing. *)
Theorem feed_route_agrees (w : World) (slug : str)
    (acceptEncoding : option str) (db : D1Database) :
  slug <> [] ->
  let shop := Feed.shop_of_slug slug in
  let response := fst (Feed.loader w (Some slug) acceptEncoding db) in
  snd (Feed.loader w (Some slug) acceptEncoding db)
  = snd (getCachedFeed w shop db)
  /\ feed_settings (snd (Feed.loader w (Some slug) acceptEncoding db))
     = feed_settings db
  /\ feed_cache (snd (Feed.loader w (Some slug) acceptEncoding db))
     = feed_cache db
  /\ match fst (getCachedFeed w shop db) with
     | Ok (Some cached) =>
         Feed.status response = 200
         /\ (Feed.content response = Feed.Text (Cached.feedData cached)
             \/ Feed.content response = Feed.Gzip (Cached.feedData cached))
         /\ In (lit "X-Product-Count",
                Feed.Plain (Feed.count_text (Cached.productCount cached)))
               (Feed.headers response)
         /\ In (lit "Last-Modified",
                Feed.UTCString (Cached.generatedAt cached))
               (Feed.headers response)
     | Ok None => response = Feed.not_found
     | Throw _ => Feed.status response = 500
     end.
Proof.
  intros Hslug shop response. subst response.
  unfold Feed.loader, getCachedFeed, bind, ret.
  cbn [truthy_opt]. rewrite (proj2 (truthy_true slug) Hslug).
  cbn [negb default from_option id]. fold shop.
  destruct (first_cache w shop db) as [[[row |] | e] db1] eqn:Hfirst.
  - assert (Htables : feed_settings db1 = feed_settings db
                      /\ feed_cache db1 = feed_cache db).
    { unfold first_cache, bind, peek in Hfirst.
      destruct (run w (SelectCache shop) db) as [[[] | e] db2] eqn:Hrun;
        [| discriminate].
      injection Hfirst as _ <-.
      apply run_effect in Hrun as (_ & [(_ & Hs & Hc & _) | (_ & _ & Hs & Hc)]);
        auto. }
    destruct Htables as [Hs Hc].
    destruct (CacheRow.feed_data row) as [data |]; cbn [truthy_opt].
    + destruct (truthy data); cbn [negb fst snd default from_option id];
        [| auto].
      destruct (Feed.includes (lit "gzip") (or_opt acceptEncoding []));
        cbn [fst snd Feed.status Feed.content Feed.headers Cached.feedData
             Cached.productCount Cached.generatedAt];
        repeat split; auto; cbn [In]; auto 10.
    + cbn [negb fst snd]. auto.
  - cbn [fst snd]. unfold first_cache, bind, peek in Hfirst.
    destruct (run w (SelectCache shop) db) as [[[] | e] db2] eqn:Hrun;
      [| discriminate].
    injection Hfirst as _ <-.
    apply run_effect in Hrun as (_ & [(_ & Hs & Hc & _) | (_ & _ & Hs & Hc)]);
      auto.
  - cbn [fst snd]. unfold first_cache, bind, peek in Hfirst.
    destruct (run w (SelectCache shop) db) as [[[] | e'] db2] eqn:Hrun;
      [discriminate |].
    injection Hfirst as _ <-.
    apply run_effect in Hrun as (_ & [(_ & Hs & Hc & _) | (Hr & _)]);
      [auto | discriminate].
Qed.

Lemma feed_route_agrees_witness :
  fst (Feed.loader quiet_world (Some (lit "mugs")) None
         (snd (generateFeed quiet_world sample_shop_key empty_db)))
  = Feed.not_found.
Proof.
  apply (feed_route_agrees quiet_world (lit "mugs") None
           (snd (generateFeed quiet_world sample_shop_key empty_db))).
  discriminate.
Defined.



(** ** The dashboard route *)

Lemma no_dot_no_match (c : N) (s : str) :
  c <> 46%N -> match_here (literal (lit ".myshopify.com")) (c :: s) = None.
Proof.
  intros Hc. rewrite match_literal.
  change (lit ".myshopify.com") with (46%N :: lit "myshopify.com").
  cbn [starts_with]. now rewrite (proj2 (N.eqb_neq 46 c)) by congruence.
Qed.

Lemma shop_slug_of_slug (slug : str) :
  Forall (fun c => c <> 46%N) slug ->
  Dashboard.shop_slug (Feed.shop_of_slug slug) = slug.
Proof.
  intros Hslug. unfold Dashboard.shop_slug, Feed.shop_of_slug.
  induction Hslug as [| c slug Hc _ IH]; [reflexivity |].
  cbn [app]. rewrite replace_first_skip by (now apply no_dot_no_match).
  now rewrite IH.
Qed.

(** X22: the slug in the feed URL of the dashboard leads the public route
    back to the shop: for a shop that is a slug without a dot followed by
    ".myshopify.com", the dashboard takes that slug, and the public route
    rebuilds the shop from it. *)
Theorem shop_slug_round_trip (slug : str) :
  Forall (fun c => c <> 46%N) slug ->
  Dashboard.shop_slug (Feed.shop_of_slug slug) = slug
  /\ Feed.shop_of_slug (Dashboard.shop_slug (Feed.shop_of_slug slug))
     = Feed.shop_of_slug slug.
Proof.
  intros Hslug. rewrite (shop_slug_of_slug slug Hslug). split; reflexivity.
Qed.

Lemma shop_slug_round_trip_witness :
  Dashboard.shop_slug (lit "mugs.myshopify.com") = lit "mugs".
Proof.
  apply (shop_slug_round_trip (lit "mugs")).
  vm_compute. repeat constructor; discriminate.
Defined.

(** ** Settings from the shop *)

Lemma or_str_idem (s d : str) : d <> [] -> or_str (or_str s d) d = or_str s d.
Proof.
  intros Hd. unfold or_str. destruct (truthy s) eqn:Hs; [now rewrite Hs |].
  now rewrite (proj2 (truthy_true d) Hd).
Qed.

(** X23: [autoPopulateSettings] issues no statement when the shop query is
    rejected.  When it resolves and no statement fails, the settings it
    returns carry the shop's name, its URL without a slash at the end, its
    billing country and its ship-to countries joined by commas (or "US"),
    and the eligibility flags, the three policy URLs and the return
    settings exactly as they were read before: the policies query gives no
    URL any more, so no policy URL is ever overwritten. *)
Theorem autoPopulateSettings_fills (w : World)
    (shipsToCountries : option (list str)) (shop : str) (db : D1Database) :
  (forall e, fetchShopInfo w = Throw e ->
     autoPopulateSettings w shipsToCountries shop db = (Throw e, db))
  /\ (forall shopInfo,
        (forall n, fault w n = false) ->
        fetchShopInfo w = Ok shopInfo ->
        let old :=
          settings_of_row shop
            (default (inserted_row w) (feed_settings db !! shop)) in
        exists settings db',
          autoPopulateSettings w shipsToCountries shop db = (Ok settings, db')
          /\ feed_cache db' = feed_cache db
          /\ FeedSettings.seller_name settings = Some (ShopInfo.name shopInfo)
          /\ FeedSettings.seller_url settings
             = Some (replace_first trailing_slash []
                       (or_opt (ShopInfo.primaryDomain shopInfo)
                          (or_str (ShopInfo.url shopInfo)
                             (lit "https://" ++ shop))))
          /\ FeedSettings.store_country settings
             = or_opt (ShopInfo.billingAddress shopInfo) (lit "US")
          /\ FeedSettings.target_countries settings
             = match shipsToCountries with
               | Some countries => or_str (join (lit ",") countries) (lit "US")
               | None => lit "US"
               end
          /\ FeedSettings.enable_search settings
             = FeedSettings.enable_search old
          /\ FeedSettings.enable_checkout settings
             = FeedSettings.enable_checkout old
          /\ FeedSettings.privacy_policy_url settings
             = FeedSettings.privacy_policy_url old
          /\ FeedSettings.terms_of_service_url settings
             = FeedSettings.terms_of_service_url old
          /\ FeedSettings.return_policy_url settings
             = FeedSettings.return_policy_url old
          /\ FeedSettings.accepts_returns settings
             = FeedSettings.accepts_returns old
          /\ FeedSettings.return_deadline_days settings
             = FeedSettings.return_deadline_days old
          /\ FeedSettings.accepts_exchanges settings
             = FeedSettings.accepts_exchanges old).
Proof.
  split.
  - intros e He. unfold autoPopulateSettings, bind, both. now rewrite He.
  - intros shopInfo Hf Hinfo old.
    unfold autoPopulateSettings, bind, both, fetchShopPolicies.
    rewrite Hinfo. cbn [fst snd].
    set (updates := populated_updates shop shopInfo shipsToCountries _).
    destruct (update_then_get_quiet w shop updates db Hf)
      as (db1 & db2 & Hrun & Hget & Hc & _).
    rewrite Hrun, Hget. fold old.
    eexists. exists db2. split; [reflexivity |]. split; [exact Hc |].
    subst updates. unfold read_back, populated_updates.
    cbn [FeedSettings.seller_name FeedSettings.seller_url
         FeedSettings.store_country FeedSettings.target_countries
         FeedSettings.enable_search FeedSettings.enable_checkout
         FeedSettings.privacy_policy_url FeedSettings.terms_of_service_url
         FeedSettings.return_policy_url FeedSettings.accepts_returns
         FeedSettings.return_deadline_days FeedSettings.accepts_exchanges
         Updates.seller_name Updates.seller_url Updates.store_country
         Updates.target_countries Updates.enable_search Updates.enable_checkout
         Updates.privacy_policy_url Updates.terms_of_service_url
         Updates.return_policy_url Updates.accepts_returns
         Updates.return_deadline_days Updates.accepts_exchanges
         ShopPolicies.privacyPolicy ShopPolicies.termsOfService
         ShopPolicies.refundPolicy set_if_truthy default from_option id].
    split; [reflexivity |]. split; [reflexivity |].
    split.
    { destruct (ShopInfo.billingAddress shopInfo) as [country |];
        cbn [or_opt]; [apply or_str_idem; discriminate | reflexivity]. }
    split.
    { destruct shipsToCountries; [apply or_str_idem; discriminate | reflexivity]. }
    repeat split.
Qed.

Lemma autoPopulateSettings_fills_witness :
  exists settings db',
    autoPopulateSettings quiet_world (Some [lit "US"; lit "CA"])
      sample_shop_key empty_db = (Ok settings, db')
    /\ FeedSettings.seller_name settings = Some (lit "Mugs")
    /\ FeedSettings.seller_url settings = Some (lit "https://mugs.example")
    /\ FeedSettings.target_countries settings = lit "US,CA".
Proof.
  destruct (proj2 (autoPopulateSettings_fills quiet_world
                     (Some [lit "US"; lit "CA"]) sample_shop_key empty_db)
              sample_shop (fun _ => eq_refl) eq_refl)
    as (settings & db' & Hrun & _ & Hname & Hurl & _ & Hcountries & _).
  exists settings, db'. repeat split; assumption.
Defined.

(** ** The dashboard loader *)

(** The cache read when its statement does not fail. *)
Lemma getCachedFeed_quiet (w : World) (shop : str) (db : D1Database) :
  fault w (length (journal db)) = false ->
  exists db',
    getCachedFeed w shop db = (fst (getCachedFeed w shop db), db')
    /\ feed_settings db' = feed_settings db
    /\ feed_cache db' = feed_cache db
    /\ (fst (getCachedFeed w shop db) = Ok None
        <-> forall row data,
              feed_cache db !! shop = Some row ->
              CacheRow.feed_data row = Some data -> data = []).
Proof.
  intros Hf. exists (snd (getCachedFeed w shop db)).
  split; [apply surjective_pairing |].
  unfold getCachedFeed, first_cache, bind, run, peek, ret.
  rewrite Hf. cbn [feed_cache feed_settings fst snd].
  destruct (feed_cache db !! shop) as [row |].
  - destruct (CacheRow.feed_data row) as [data |] eqn:Hfd.
    + destruct (truthy data) eqn:Hdata;
        cbn [negb fst snd feed_cache feed_settings];
        (split; [reflexivity | split; [reflexivity |]]).
      * split; [discriminate |].
        intros Hall. apply truthy_true in Hdata.
        destruct Hdata. now apply (Hall row data).
      * split; [| reflexivity].
        intros _ row' data' [= <-] Hd. rewrite Hfd in Hd.
        injection Hd as <-. now apply truthy_false.
    + cbn [fst snd feed_cache feed_settings].
      split; [reflexivity | split; [reflexivity |]].
      split; [intros _ row' data' [= <-] Hd; rewrite Hfd in Hd; discriminate | reflexivity].
  - cbn [fst snd feed_cache feed_settings].
    split; [reflexivity | split; [reflexivity |]].
    split; [intros _ row' data'; discriminate | reflexivity].
Qed.

(** The public route answers "Feed not found" exactly for a shop without a
    row of non-empty payload, when its statement does not fail. *)
Lemma feed_loader_not_found (w : World) (slug : str)
    (acceptEncoding : option str) (db : D1Database) :
  fault w (length (journal db)) = false ->
  slug <> [] ->
  fst (Feed.loader w (Some slug) acceptEncoding db) = Feed.not_found
  <-> forall row data,
        feed_cache db !! Feed.shop_of_slug slug = Some row ->
        CacheRow.feed_data row = Some data -> data = [].
Proof.
  intros Hf Hslug. unfold Feed.loader, first_cache, bind, run, peek.
  cbn [truthy_opt]. rewrite (proj2 (truthy_true slug) Hslug).
  cbn [negb default from_option id]. rewrite Hf. cbn [feed_cache fst snd].
  destruct (feed_cache db !! Feed.shop_of_slug slug) as [row |].
  - destruct (CacheRow.feed_data row) as [data |] eqn:Hfd; cbn [truthy_opt].
    + destruct (truthy data) eqn:Hdata; cbn [negb fst default from_option id].
      * split.
        -- destruct (Feed.includes (lit "gzip") (or_opt acceptEncoding []));
             cbn [fst]; discriminate.
        -- intros Hall. apply truthy_true in Hdata.
           destruct Hdata. now apply (Hall row data).
      * split; [| reflexivity].
        intros _ row' data' [= <-] Hd. rewrite Hfd in Hd.
        injection Hd as <-. now apply truthy_false.
    + cbn [negb fst].
      split; [intros _ row' data' [= <-] Hd; rewrite Hfd in Hd; discriminate | reflexivity].
  - cbn [fst]. split; [intros _ row' data'; discriminate | reflexivity].
Qed.

(** X24: for a shop whose stored seller name is not empty, the dashboard
    loader writes nothing when no statement fails: it returns the stored
    settings as read, the feed URL made of the app URL, "/feed/", the slug
    and "/products.jsonl", and no feed status exactly when the public route
    of that slug answers "Feed not found".  This holds whatever the shop
    query would answer, so a rejected shop query does not fail the page. *)
Theorem dashboard_configured (w : World) (shipsToCountries : option (list str))
    (appUrl acceptEncoding : option str) (slug : str) (db : D1Database)
    (row : gmap Col.t sqlval) (name : str) :
  (forall n, fault w n = false) ->
  slug <> [] ->
  Forall (fun c => c <> 46%N) slug ->
  feed_settings db !! Feed.shop_of_slug slug = Some row ->
  row !! Col.seller_name = Some (Text name) ->
  name <> [] ->
  exists page db',
    Dashboard.loader w shipsToCountries appUrl (Feed.shop_of_slug slug) db
    = (Ok page, db')
    /\ feed_settings db' = feed_settings db
    /\ feed_cache db' = feed_cache db
    /\ Dashboard.shop page = Feed.shop_of_slug slug
    /\ Dashboard.settings page = settings_of_row (Feed.shop_of_slug slug) row
    /\ Dashboard.feedUrl page
       = or_opt appUrl [] ++ lit "/feed/" ++ slug ++ lit "/products.jsonl"
    /\ (Dashboard.feedStatus page = None
        <-> fst (Feed.loader w (Some slug) acceptEncoding db)
            = Feed.not_found).
Proof.
  intros Hf Hslug Hdots Hrow Hname Hne.
  set (shop := Feed.shop_of_slug slug) in *.
  unfold Dashboard.loader, bind.
  rewrite (getFeedSettings_existing w shop db row) by auto.
  assert (Hseller : FeedSettings.seller_name (settings_of_row shop row)
                    = Some name).
  { unfold settings_of_row. cbn [FeedSettings.seller_name].
    now rewrite Hname. }
  rewrite Hseller. cbn [truthy_opt].
  rewrite (proj2 (truthy_true name) Hne). cbn [negb]. unfold ret at 1.
  set (db1 := {| feed_settings := feed_settings db;
                 feed_cache := feed_cache db;
                 journal := journal db ++ [SelectSettings shop] |}).
  destruct (getCachedFeed_quiet w shop db1 (Hf _))
    as (db2 & Hrun & Hs & Hc & Hnone).
  rewrite Hrun.
  destruct (fst (getCachedFeed w shop db1)) as [cached | e] eqn:Hread.
  - unfold ret. eexists. exists db2. split; [reflexivity |].
    cbn [Dashboard.shop Dashboard.settings Dashboard.feedUrl
         Dashboard.feedStatus].
    pose proof (feed_loader_not_found w slug acceptEncoding db (Hf _) Hslug)
      as Hroute.
    fold shop in Hroute. unfold db1 in Hnone. cbn [feed_cache] in Hnone.
    repeat (split; [now auto |]).
    split; [unfold shop; now rewrite (shop_slug_of_slug slug Hdots) |].
    etransitivity; [| symmetry; exact Hroute].
    etransitivity; [| exact Hnone].
    destruct cached; cbn [fmap option_fmap option_map]; split;
      try discriminate; reflexivity.
  - exfalso. pose proof (getCachedFeed_run w shop db1 (Hf _)) as Hok.
    rewrite Hread in Hok. discriminate.
Qed.

Lemma dashboard_configured_witness :
  exists page db',
    Dashboard.loader quiet_world None (Some (lit "https://app.example"))
      sample_shop_key configured_db = (Ok page, db')
    /\ Dashboard.feedUrl page
       = lit "https://app.example/feed/mugs/products.jsonl"
    /\ Dashboard.feedStatus page = None.
Proof.
  assert (Hslug : lit "mugs" <> []) by discriminate.
  assert (Hdots : Forall (fun c => c <> 46%N) (lit "mugs")).
  { vm_compute. repeat constructor; discriminate. }
  assert (Hname : lit "Mugs" <> []) by discriminate.
  destruct (dashboard_configured quiet_world None
              (Some (lit "https://app.example")) None (lit "mugs")
              configured_db
              (<[Col.seller_name := Text (lit "Mugs")]>
                 (inserted_row quiet_world))
              (lit "Mugs") (fun _ => eq_refl) Hslug Hdots eq_refl eq_refl
              Hname)
    as (page & db' & Hrun & _ & _ & _ & _ & Hurl & Hstatus).
  exists page, db'. split; [exact Hrun |]. split; [exact Hurl |].
  apply Hstatus. reflexivity.
Defined.
